(** * cis_interface: container types, property validation, server request
      driver and comm end-of-stream — a shallow embedding and its properties.

    Python values are embedded as follows.
    - [dict] objects are finite maps ([gmap]) with string keys;
    - an exception is a value of [exception]; a call that may raise returns a
      [result];
    - methods that mutate [self] are functions in a state-and-exception monad
      (the mutations made before a [raise] are kept, as in Python);
    - Python's unbounded [int] is [Z]. *)

From stdpp Require Import base option list gmap strings pretty fin_maps.
From Stdlib Require Import ZArith Lia Ascii.

Set Warnings "-register-all".
#[local] Open Scope string_scope.
#[local] Open Scope list_scope.
#[local] Open Scope nat_scope.
#[local] Open Scope stdpp_scope.

(** ** Exceptions and results *)

Module Py.

Inductive exception : Type :=
  | KeyError (key : string)
  | TypeError
  | AttributeError (attr : string)
  | NotImplementedError (msg : string)
  | TypeResolutionError (name : string)
  | OtherError (msg : string).

Inductive result (A : Type) : Type :=
  | Ok (a : A)
  | Raise (e : exception).
Arguments Ok {A} a.
Arguments Raise {A} e.

#[global] Instance result_ret : MRet result := fun A a => Ok a.
#[global] Instance result_bind : MBind result := fun A B f r =>
  match r with
  | Ok a => f a
  | Raise e => Raise e
  end.

#[global] Instance result_fmap : FMap result := fun A B f r =>
  match r with
  | Ok a => Ok (f a)
  | Raise e => Raise e
  end.

Definition raises {A} (r : result A) : Prop :=
  match r with
  | Ok _ => False
  | Raise _ => True
  end.

End Py.
Import Py.

(** ** The metaschema container type

    [ContainerMetaschemaType] with the four hooks of its subclass
    [JSONObjectMetaschemaType] (a [dict] container, type name ['object'],
    property map under ['properties']). *)

Module Metaschema.

Section Datatypes.

(** Python objects that are not [dict]s (numbers, strings, bytes, arrays). *)
Context {leaf : Type}.

Inductive pyobj : Type :=
  | PLeaf (x : leaf)
  | PDict (m : gmap string pyobj).

(** A type definition is a [dict]: the entry ['type'] holds the type name,
    the entry ['properties'] of an object typedef maps each key to the
    typedef of that element, and [td_rest] holds every other entry. *)
Inductive typedef : Type :=
  | Typedef (td_type : option string)
            (td_properties : option (gmap string typedef))
            (td_rest : gmap string leaf).

Definition td_type (t : typedef) : option string :=
  let 'Typedef ty _ _ := t in ty.
Definition td_properties (t : typedef) : option (gmap string typedef) :=
  let 'Typedef _ ps _ := t in ps.

(** The empty typedef [{}]. *)
Definition empty_typedef : typedef := Typedef None None ∅.

(** [typedef['type']] *)
Definition typedef_type (t : typedef) : result string :=
  match td_type t with
  | Some n => Ok n
  | None => Raise (KeyError "type")
  end.

(** *** Hooks of [JSONObjectMetaschemaType] *)

Definition _json_property : string := "properties".

(** [typedef[cls._json_property]] *)
Definition typedef_properties (t : typedef) : result (gmap string typedef) :=
  match td_properties t with
  | Some ps => Ok ps
  | None => Raise (KeyError _json_property)
  end.

Definition _container_type {A} : gmap string A := ∅.

(** [_iterate] yields the [(k, v)] items of the container; the generator is
    embedded as the fold of a loop body over the items.  The fold takes the
    items in the order of the map's keys, which is not the order in which
    a [dict] yields them.  A loop whose body succeeds on every item builds
    the same container in any order, and so does a loop whose body raises
    on one item only; when the body raises on several items, which of
    their exceptions ends the loop depends on the order, and the
    properties below leave it open. *)
Definition _iterate {A B} (container : gmap string A)
    (body : string → A → B → B) (init : B) : B :=
  map_fold body init container.

(** [container[index] = value] *)
Definition _assign {A} (container : gmap string A) (index : string)
    (value : A) : gmap string A :=
  <[index := value]> container.

(** [index in container] *)
Definition _has_element {A} (container : gmap string A) (index : string)
    : bool :=
  bool_decide (is_Some (container !! index)).

(** [ContainerMetaschemaType._get_element] *)
Definition _get_element {A} (container : gmap string A) (index : string)
    (default : A) : A :=
  let out := default in
  if _has_element container index
  then match container !! index with Some x => x | None => out end
  else out.

(** [for k, v in cls._iterate(obj): cls._assign(container, k, body(k, v))]
    starting from [container = cls._container_type()]; the first item
    whose body raises ends the loop with that exception. *)
Definition assign_each {A B} (body : string → A → result B)
    (obj : gmap string A) : result (gmap string B) :=
  _iterate obj
    (fun k v acc => container ← acc; x ← body k v;
                    mret (_assign container k x))
    (Ok _container_type).

(** *** The type registry *)

(** A registered type class that is not a container: its [encode_data],
    [decode_data] and [validate] class methods.  These classes are
    defined in other modules of the package and are parameters here. *)
Record ScalarType : Type := {
  scalar_encode_data : pyobj → typedef → result pyobj;
  scalar_decode_data : pyobj → typedef → result pyobj;
  scalar_validate : pyobj → typedef → bool
}.

Inductive type_class : Type :=
  | JSONObjectMetaschemaType
  | ScalarMetaschemaType (c : ScalarType).

Variable scalar_types : gmap string ScalarType.

(** Modelled from the spec: the registry and [get_type_class] live in
    [cis_interface.metaschema.datatypes], which is missing.  The registry
    is "a single process-wide mapping from type name to type class" and
    "lookups for an unregistered name fail with a type-resolution error".
    [JSONObjectMetaschemaType] registers itself under its [name],
    ['object'], replacing an existing entry ([_replaces_existing]). *)
Definition registry : gmap string type_class :=
  <["object" := JSONObjectMetaschemaType]>
    (ScalarMetaschemaType <$> scalar_types).

Definition get_type_class (name : string) : result type_class :=
  match registry !! name with
  | Some cls => Ok cls
  | None => Raise (TypeResolutionError name)
  end.

(** What the generic dispatcher does when it is given no typedef at all
    ([typedef=None]) is decided in [cis_interface.metaschema.datatypes]
    and is a parameter here. *)
Variable encode_untyped : pyobj → result pyobj.

(** Modelled from the spec: the generic dispatcher [encode_data(obj,
    typedef)] of [cis_interface.metaschema.datatypes] is missing.  It
    "looks up the value's type class by name and delegates".
    [container_encode_data] is [ContainerMetaschemaType.encode_data],
    to which the dispatcher delegates for the class ['object']. *)
Definition dispatch_encode_data
    (container_encode_data : pyobj → typedef → result pyobj)
    (obj : pyobj) (typedef : option typedef) : result pyobj :=
  match typedef with
  | None => encode_untyped obj
  | Some t =>
      name ← typedef_type t;
      cls ← get_type_class name;
      match cls with
      | JSONObjectMetaschemaType => container_encode_data obj t
      | ScalarMetaschemaType c => scalar_encode_data c obj t
      end
  end.

(** [ContainerMetaschemaType.encode_data], for the [dict] container.
    An [obj] that is no [dict] has no [items]. *)
Fixpoint encode_data (obj : pyobj) (typedef : typedef) {struct obj}
    : result pyobj :=
  match obj with
  | PLeaf _ => Raise (AttributeError "items")
  | PDict m =>
      PDict <$>
      assign_each
        (fun k v =>
           let vtypedef :=
             match td_properties typedef with
             | Some properties =>
                 _get_element (Some <$> properties) k None
             | None => None
             end in
           dispatch_encode_data encode_data v vtypedef)
        m
  end.

(** [ContainerMetaschemaType.decode_data], for the [dict] container.
    [typedef[cls._json_property]] is evaluated for every item, so an
    empty [obj] decodes under any typedef. *)
Fixpoint decode_data (obj : pyobj) (typedef : typedef) {struct obj}
    : result pyobj :=
  match obj with
  | PLeaf _ => Raise (AttributeError "items")
  | PDict m =>
      PDict <$>
      assign_each
        (fun k v =>
           properties ← typedef_properties typedef;
           let vtypedef := _get_element properties k empty_typedef in
           name ← typedef_type vtypedef;
           vcls ← get_type_class name;
           match vcls with
           | JSONObjectMetaschemaType => decode_data v vtypedef
           | ScalarMetaschemaType c => scalar_decode_data c v vtypedef
           end)
        m
  end.

(** *** Values with a typedef for every item

    The values that a typedef describes item by item: the typedef names a
    registered type and, for ['object'], the value is a [dict] and every
    item has a typedef of its own in the property map, which describes it
    in turn; for another type, the class's [validate] accepts the value.
    This asks more than validity under the typedef read as a JSON schema,
    where an item without an entry in the property map is not
    constrained. *)

Definition map_forallb {A} (f : string → A → bool) (m : gmap string A)
    : bool :=
  map_fold (fun k v acc => f k v && acc) true m.

Fixpoint described (obj : pyobj) (typedef : typedef) {struct obj}
    : bool :=
  match td_type typedef with
  | None => false
  | Some name =>
      if decide (name = "object") then
        match obj with
        | PLeaf _ => false
        | PDict m =>
            map_forallb
              (fun k v =>
                 match td_properties typedef ≫= (.!! k) with
                 | Some vtypedef => described v vtypedef
                 | None => false
                 end)
              m
        end
      else
        match scalar_types !! name with
        | Some c => scalar_validate c obj typedef
        | None => false
        end
  end.

(** Nesting depth of a value, the measure of the recursion. *)
Fixpoint depth (obj : pyobj) : nat :=
  match obj with
  | PLeaf _ => 0
  | PDict m => S (map_fold (fun _ v n => depth v `max` n) 0 m)
  end.

End Datatypes.

Arguments pyobj : clear implicits.
Arguments typedef : clear implicits.
Arguments ScalarType : clear implicits.
Arguments type_class : clear implicits.

End Metaschema.


(** ** Metaschema properties

    [MetaschemaProperty]: a property of the metaschema used as a validator
    of JSON schema.  [validate] and [compare] are generators; each is
    embedded by the list of the messages it yields, or the exception it
    raises. *)

Module Property.

Section MetaschemaProperty.

(** Python objects: instances, schema values, encoded properties. *)
Context {object : Type} `{EqDecision object}.
(** [str(x)], as ['%s'] formats [x]. *)
Variable str : object → string.
(** The jsonschema validator and its [is_type(instance, t)]. *)
Context {Validator : Type}.
Variable is_type : Validator → object → string → bool.

(** The class attribute [_validate]: [False], [None], or a function
    [(cls, validator, value, instance, schema)] whose result is the messages
    (a result that is empty or [None] gives no message: [... or ()]). *)
Inductive validate_attr : Type :=
  | ValidateFalse
  | ValidateNone
  | ValidateFunction
      (f : Validator → object → object → object → result (list string)).

Record MetaschemaProperty : Type := {
  name : string;
  types : list string;
  (** [cls._encode(cls, instance, typedef=typedef)], or [None] *)
  _encode : option (object → object → result object);
  _validate : validate_attr;
  (** [cls._compare(cls, prop1, prop2)], or [None] *)
  _compare : option (object → object → result (list string))
}.

(** [MetaschemaProperty.encode] *)
Definition encode (cls : MetaschemaProperty) (instance typedef : object)
    : result object :=
  match _encode cls with
  | Some f => f instance typedef
  | None => Raise (NotImplementedError "Encode method not set.")
  end.

(** ['%s is not equal to %s' % (prop1, prop2)] *)
Definition not_equal_message (prop1 prop2 : object) : string :=
  str prop1 +:+ " is not equal to " +:+ str prop2.

(** [MetaschemaProperty.compare].  The body has a [yield], so the method is
    a generator: [return cls._compare(cls, prop1, prop2)] calls the
    function and ends the iteration, and what the function returned is not
    yielded. *)
Definition compare (cls : MetaschemaProperty) (prop1 prop2 : object)
    : result (list string) :=
  match _compare cls with
  | Some f => _ ← f prop1 prop2; mret []
  | None =>
      if decide (prop1 ≠ prop2)
      then mret [not_equal_message prop1 prop2]
      else mret []
  end.

(** [MetaschemaProperty.validate].  [compare] hands back a generator, which
    is never empty for [or], so [errors] is what [compare] yields. *)
Definition validate (cls : MetaschemaProperty) (validator : Validator)
    (value instance schema : object) : result (list string) :=
  match _validate cls with
  | ValidateFalse => mret []
  | ValidateFunction f => f validator value instance schema
  | ValidateNone =>
      if existsb (is_type validator instance) (types cls) then
        x ← encode cls instance value;
        compare cls x value
      else mret []
  end.

(** The property as the specification words it: for an instance of one of
    the accepted types, what [validate] yields is what comparing the
    encoded instance with the schema value yields; for another instance
    [validate] yields nothing. *)
Definition validate_property (cls : MetaschemaProperty) : Prop :=
  ∀ validator value instance schema,
    if existsb (is_type validator instance) (types cls) then
      ∀ x, encode cls instance value = Ok x →
           validate cls validator value instance schema = compare cls x value
    else validate cls validator value instance schema = Ok [].

(** *** The wrapped validator *)

(** [_base_validator.VALIDATORS]: the validators of the base jsonschema
    validator by property name, a table of the jsonschema library; a
    validator gives the messages of its errors. *)
Variable VALIDATORS :
  gmap string (Validator → object → object → object → result (list string)).

(** [MetaschemaProperty.normalize] *)
Definition normalize (cls : MetaschemaProperty) (validator : Validator)
    (value instance schema : object) : object :=
  instance.

(** What iterating [wrapped_validate] to its end does: the messages of the
    errors it yields, the exception it raises if any, the value given to
    [validator._normalized] if any, and whether [post_validate] was
    called. *)
Record wrapped_outcome : Type := {
  yielded : list string;
  raised : option exception;
  _normalized : option object;
  post_validated : bool
}.

(** [MetaschemaProperty.wrapped_validate]; [normalizing] is
    [validator._normalizing].  The [finally] clause runs whether the [try]
    block ended or raised. *)
Definition wrapped_validate (cls : MetaschemaProperty) (normalizing : bool)
    (validator : Validator) (value instance schema : object)
    : wrapped_outcome :=
  let normalized :=
    if normalizing
    then Some (normalize cls validator value instance schema)
    else None in
  let instance := default instance normalized in
  match validate cls validator value instance schema with
  | Raise e =>
      {| yielded := []; raised := Some e; _normalized := normalized;
         post_validated := normalizing |}
  | Ok (e :: errors) =>
      {| yielded := e :: errors; raised := None; _normalized := normalized;
         post_validated := false |}
  | Ok [] =>
      match VALIDATORS !! name cls with
      | None =>
          {| yielded := []; raised := None; _normalized := normalized;
             post_validated := normalizing |}
      | Some base =>
          match base validator value instance schema with
          | Raise e =>
              {| yielded := []; raised := Some e; _normalized := normalized;
                 post_validated := normalizing |}
          | Ok errors =>
              {| yielded := errors; raised := None;
                 _normalized := normalized;
                 post_validated :=
                   normalizing && bool_decide (length errors = 0) |}
          end
      end
  end.

End MetaschemaProperty.

Arguments validate_attr : clear implicits.
Arguments MetaschemaProperty : clear implicits.
Arguments wrapped_outcome : clear implicits.

End Property.

(** ** Comms and end of stream *)

Module Comm.

(** Modelled from the spec: the comm classes ([CommBase], [FileComm] and
    the others) are missing.  The backends are an "in-memory queue, file,
    message-broker, synchronous/asynchronous broker". *)
Inductive comm_kind : Type :=
  | QueueComm
  | FileComm
  | BrokerComm
  | AsyncBrokerComm.

(** Modelled from the spec: a transport with its two ends, one sending and
    one receiving.  The transport delivers messages "in the order sent";
    a message is one atomic piece, or the pieces of a payload "exceeding a
    transport's atomic-message size limit (chunked internally, reassembled
    transparently)". *)
Record channel : Type := {
  kind : comm_kind;
  eof_msg : string;
  max_msg_size : nat;
  transport : list (list string);
  send_is_closed : bool;
  recv_is_closed : bool
}.

Definition put (pieces : list string) (close : bool) (ch : channel) : channel :=
  {| kind := kind ch; eof_msg := eof_msg ch; max_msg_size := max_msg_size ch;
     transport := transport ch ++ [pieces];
     send_is_closed := close || send_is_closed ch;
     recv_is_closed := recv_is_closed ch |}.

Definition take_first (close : bool) (ch : channel) : channel :=
  {| kind := kind ch; eof_msg := eof_msg ch; max_msg_size := max_msg_size ch;
     transport := tail (transport ch);
     send_is_closed := send_is_closed ch;
     recv_is_closed := close || recv_is_closed ch |}.

(** The pieces of at most [size] characters of a payload. *)
Fixpoint chunks (fuel size : nat) (msg : string) : list string :=
  match fuel with
  | 0 => [msg]
  | S fuel =>
      if String.length msg <=? size then [msg]
      else String.substring 0 size msg
           :: chunks fuel size
                (String.substring size (String.length msg - size) msg)
  end.

(** Modelled from the spec: [send(msg) -> success].  "Once closed, no
    further send"; sending the EOF sentinel "flips [is_closed] to true" and
    "returns [success=False]"; a payload over the size limit is not sent. *)
Definition send (msg : string) (ch : channel) : bool * channel :=
  if send_is_closed ch then (false, ch)
  else if decide (msg = eof_msg ch) then (false, put [msg] true ch)
  else if max_msg_size ch <? String.length msg then (false, ch)
  else (true, put [msg] false ch).

(** Modelled from the spec: [send_nolimit(msg) -> success], the chunked
    path. *)
Definition send_nolimit (msg : string) (ch : channel) : bool * channel :=
  if send_is_closed ch then (false, ch)
  else if decide (msg = eof_msg ch) then (false, put [msg] true ch)
  else (true, put (chunks (String.length msg) (max_msg_size ch) msg) false ch).

(** Modelled from the spec: [recv() -> (success, msg)].  Receiving the EOF
    sentinel "flips [is_closed] to true" and "returns [success=False]";
    nothing to receive, or a payload in several pieces, is a failure. *)
Definition recv (ch : channel) : bool * string * channel :=
  if recv_is_closed ch then (false, "", ch)
  else match transport ch with
       | [] => (false, "", ch)
       | [msg] :: _ =>
           if decide (msg = eof_msg ch)
           then (false, msg, take_first true ch)
           else (true, msg, take_first false ch)
       | _ :: _ => (false, "", ch)
       end.

(** Modelled from the spec: [recv_nolimit() -> (success, msg)], which
    reassembles the pieces. *)
Definition recv_nolimit (ch : channel) : bool * string * channel :=
  if recv_is_closed ch then (false, "", ch)
  else match transport ch with
       | [] => (false, "", ch)
       | pieces :: _ =>
           let msg := foldr String.append "" pieces in
           if decide (msg = eof_msg ch)
           then (false, msg, take_first true ch)
           else (true, msg, take_first false ch)
       end.

(** A comm pair as it is created: both ends open, nothing in transit. *)
Definition new_comm (kind : comm_kind) (eof_msg : string) (max_msg_size : nat)
    : channel :=
  {| kind := kind; eof_msg := eof_msg; max_msg_size := max_msg_size;
     transport := []; send_is_closed := false; recv_is_closed := false |}.

End Comm.

(** ** The server request driver

    [ServerRequestDriver] and the parts of its base class
    [ConnectionDriver] and of [ServerResponseDriver] that it calls.  The
    methods run on the driver's own thread; [with self.lock] is not
    represented, one method call is one atomic step. *)

Module Driver.

(** Keyword arguments of [send_message]: the two keywords the driver sets by
    default, and every other keyword. *)
Record kwargs : Type := {
  send_header : option bool;
  header_kwargs : option (gmap string string);
  other_kwargs : gmap string string
}.

Definition no_kwargs : kwargs :=
  {| send_header := None; header_kwargs := None; other_kwargs := ∅ |}.

(** Modelled from the spec: the class [ServerResponseDriver] is missing.  An
    instance is "bound to that [response_address] and to the originating
    [request_id]", is started by [start()], and has its "own listening
    address", [model_response_address]. *)
Record ServerResponseDriver : Type := {
  srd_response_address : string;
  srd_comm : option string;
  srd_msg_id : string;
  model_response_address : string;
  srd_started : bool
}.

Record ServerRequestDriver : Type := {
  nclients : Z;
  response_drivers : list ServerResponseDriver;
  comm : option string;
  (** [self.icomm._last_header]; the attribute does not exist before the
      first receive. *)
  _last_header : option (gmap string string);
  is_comm_open : bool;
  (** The calls of the base class's [send_message], which hands its
      arguments to the output comm. *)
  ocomm_sent : list (list string * kwargs);
  (** The number of comm addresses generated so far. *)
  comm_count : nat
}.

Definition set_nclients (n : Z) (self : ServerRequestDriver) :=
  {| nclients := n; response_drivers := response_drivers self;
     comm := comm self; _last_header := _last_header self;
     is_comm_open := is_comm_open self; ocomm_sent := ocomm_sent self;
     comm_count := comm_count self |}.

Definition set_last_header (h : option (gmap string string))
    (self : ServerRequestDriver) :=
  {| nclients := nclients self; response_drivers := response_drivers self;
     comm := comm self; _last_header := h;
     is_comm_open := is_comm_open self; ocomm_sent := ocomm_sent self;
     comm_count := comm_count self |}.

Definition add_response_driver (d : ServerResponseDriver)
    (self : ServerRequestDriver) :=
  {| nclients := nclients self;
     response_drivers := response_drivers self ++ [d];
     comm := comm self; _last_header := _last_header self;
     is_comm_open := is_comm_open self; ocomm_sent := ocomm_sent self;
     comm_count := S (comm_count self) |}.

Definition add_ocomm_sent (call : list string * kwargs)
    (self : ServerRequestDriver) :=
  {| nclients := nclients self; response_drivers := response_drivers self;
     comm := comm self; _last_header := _last_header self;
     is_comm_open := is_comm_open self;
     ocomm_sent := ocomm_sent self ++ [call];
     comm_count := comm_count self |}.

(** [ServerRequestDriver.__init__]: no clients, no response drivers. *)
Definition init (comm : option string) : ServerRequestDriver :=
  {| nclients := 0; response_drivers := []; comm := comm;
     _last_header := None; is_comm_open := true; ocomm_sent := [];
     comm_count := 0 |}.

(** A method of the driver: it returns or raises, and leaves a driver. *)
Definition M (A : Type) : Type :=
  ServerRequestDriver → result A * ServerRequestDriver.

#[global] Instance M_ret : MRet M := fun A a self => (Ok a, self).
#[global] Instance M_bind : MBind M := fun A B f m self =>
  match m self with
  | (Ok a, self') => f a self'
  | (Raise e, self') => (Raise e, self')
  end.

Definition gets {A} (f : ServerRequestDriver → A) : M A :=
  fun self => (Ok (f self), self).
Definition modify (f : ServerRequestDriver → ServerRequestDriver) : M unit :=
  fun self => (Ok (), f self).
Definition raise {A} (e : exception) : M A :=
  fun self => (Raise e, self).

(** [self.icomm._last_header] *)
Definition last_header : M (gmap string string) :=
  h ← gets _last_header;
  match h with
  | Some h => mret h
  | None => raise (AttributeError "_last_header")
  end.

(** [d[key]] *)
Definition getitem (d : gmap string string) (key : string) : M string :=
  match d !! key with
  | Some x => mret x
  | None => raise (KeyError key)
  end.

Definition request_id : M string :=
  h ← last_header; getitem h "id".

Definition response_address : M string :=
  h ← last_header; getitem h "response_address".

(** [kwargs.setdefault('send_header', value)] *)
Definition setdefault_send_header (value : bool) (kw : kwargs) : kwargs :=
  {| send_header := Some (default value (send_header kw));
     header_kwargs := header_kwargs kw; other_kwargs := other_kwargs kw |}.

(** [kwargs.setdefault('header_kwargs', {})] *)
Definition setdefault_header_kwargs (kw : kwargs) : kwargs :=
  {| send_header := send_header kw;
     header_kwargs := Some (default ∅ (header_kwargs kw));
     other_kwargs := other_kwargs kw |}.

(** [d.setdefault(key, value)] on a [dict] *)
Definition setdefault (key value : string) (d : gmap string string)
    : gmap string string :=
  match d !! key with
  | Some _ => d
  | None => <[key := value]> d
  end.

(** [kwargs['header_kwargs'].setdefault(key, value)], after the keyword
    [header_kwargs] was given its default. *)
Definition header_kwargs_setdefault (key value : string) (kw : kwargs)
    : kwargs :=
  {| send_header := send_header kw;
     header_kwargs := setdefault key value <$> header_kwargs kw;
     other_kwargs := other_kwargs kw |}.

Section Methods.

(** The client sign-on message, a constant of [ClientRequestDriver]. *)
Variable CIS_CLIENT_INI : string.
(** The EOF sentinel of the input comm. *)
Variable eof_msg : string.
(** The address generated for the [n]-th comm. *)
Variable new_address : nat → string.
(** Whether the output comm accepts a message. *)
Variable ocomm_send : list string → kwargs → bool.

(** Modelled from the spec: [ConnectionDriver.on_message] is missing; the
    hook is the "identity by default". *)
Definition ConnectionDriver_on_message (msg : string) : M string :=
  mret msg.

(** Modelled from the spec: [ConnectionDriver.on_eof] is missing; on EOF
    the base driver lets the pump "propagate EOF to output": it returns the
    EOF sentinel as the message to send. *)
Definition ConnectionDriver_on_eof : M string :=
  mret eof_msg.

(** Modelled from the spec: [ConnectionDriver.send_message] is missing; it
    sends the message to the output comm, with the header keywords, and
    returns the comm's success flag. *)
Definition ConnectionDriver_send_message (args : list string) (kw : kwargs)
    : M bool :=
  _ ← modify (add_ocomm_sent (args, kw));
  mret (ocomm_send args kw).

(** Modelled from the spec: the constructor of [ServerResponseDriver],
    called as [ServerResponseDriver(response_address, comm=..., msg_id=...)];
    the new driver gets an address of its own. *)
Definition ServerResponseDriver_new (response_address : string)
    (comm : option string) (msg_id : string) : M ServerResponseDriver :=
  n ← gets comm_count;
  mret {| srd_response_address := response_address; srd_comm := comm;
          srd_msg_id := msg_id; model_response_address := new_address n;
          srd_started := false |}.

(** [response_driver.start()] *)
Definition start (d : ServerResponseDriver) : ServerResponseDriver :=
  {| srd_response_address := srd_response_address d; srd_comm := srd_comm d;
     srd_msg_id := srd_msg_id d;
     model_response_address := model_response_address d;
     srd_started := true |}.

(** [ServerRequestDriver.on_eof] *)
Definition on_eof : M string :=
  _ ← modify (fun self => set_nclients (nclients self - 1) self);
  n ← gets nclients;
  if decide (n = 0%Z) then
    h ← last_header;
    _ ← modify (set_last_header (Some (<["response_address" := "EOF"]> h)));
    ConnectionDriver_on_eof
  else mret "".

(** [ServerRequestDriver.on_message] *)
Definition on_message (msg : string) : M string :=
  if decide (msg = CIS_CLIENT_INI) then
    _ ← modify (fun self => set_nclients (nclients self + 1) self);
    ConnectionDriver_on_message ""
  else ConnectionDriver_on_message msg.

(** [ServerRequestDriver.send_message] *)
Definition send_message (args : list string) (kw : kwargs) : M bool :=
  ra ← response_address;
  if decide (ra ≠ "EOF") then
    open ← gets is_comm_open;
    if negb open then mret false
    else
      ra ← response_address;
      comm ← gets comm;
      msg_id ← request_id;
      response_driver ← ServerResponseDriver_new ra comm msg_id;
      let response_driver := start response_driver in
      _ ← modify (add_response_driver response_driver);
      let kw := setdefault_send_header true kw in
      let kw := setdefault_header_kwargs kw in
      let kw := header_kwargs_setdefault "response_address"
                  (model_response_address response_driver) kw in
      rid ← request_id;
      let kw := header_kwargs_setdefault "id" rid kw in
      ConnectionDriver_send_message args kw
  else ConnectionDriver_send_message args kw.

(** *** The pump *)

(** What the input comm delivers: a message with its header, or EOF. *)
Inductive event : Type :=
  | Message (header : gmap string string) (msg : string)
  | EOF.

(** Modelled from the spec: the receive half of the pump of
    [ConnectionDriver] is missing.  "On successful receive, invoke the
    overridable [on_message(msg)] hook"; "on EOF or recv failure, invoke
    [on_eof()]".  Receiving a message records its header. *)
Definition recv_message (ev : event) : M string :=
  match ev with
  | Message header msg =>
      _ ← modify (set_last_header (Some header));
      on_message msg
  | EOF => on_eof
  end.

(** Modelled from the spec: one turn of the pump of [ConnectionDriver],
    which is missing: the message the hook produced is sent to the output
    comm; an empty message is "swallowed (not forwarded)". *)
Definition run_loop (ev : event) : M unit :=
  msg ← recv_message ev;
  if decide (msg = "") then mret ()
  else _ ← send_message [msg] no_kwargs; mret ().

Fixpoint run (evs : list event) : M unit :=
  match evs with
  | [] => mret ()
  | ev :: evs => _ ← run_loop ev; run evs
  end.

(** *** Clients signing on and off *)

Inductive client_event : Type :=
  | SignOn (header : gmap string string)
  | SignOff.

Definition to_event (c : client_event) : event :=
  match c with
  | SignOn header => Message header CIS_CLIENT_INI
  | SignOff => EOF
  end.

Definition is_sign_off (c : client_event) : bool :=
  match c with
  | SignOn _ => false
  | SignOff => true
  end.

Definition signons (evs : list client_event) : nat :=
  length (List.filter (fun c => negb (is_sign_off c)) evs).
Definition signoffs (evs : list client_event) : nat :=
  length (List.filter is_sign_off evs).

(** The driver after the first [n] client events, from its initial state. *)
Definition after (comm : option string) (evs : list client_event) (n : nat)
    : ServerRequestDriver :=
  (run (to_event <$> take n evs) (init comm)).2.

(** The number of times the EOF sentinel went to the output comm. *)
Definition eof_forwarded (self : ServerRequestDriver) : nat :=
  length (filter (fun call => call.1 = [eof_msg]) (ocomm_sent self)).

(** *** The hooks called in sequence *)

(** A call of one of the two hooks of the driver. *)
Inductive hook_call : Type :=
  | OnMessage (msg : string)
  | OnEof.

Definition call_hook (c : hook_call) : M string :=
  match c with
  | OnMessage msg => on_message msg
  | OnEof => on_eof
  end.

(** The driver after a sequence of calls of the hooks, whatever each call
    returned or raised. *)
Fixpoint call_hooks (calls : list hook_call) (self : ServerRequestDriver)
    : ServerRequestDriver :=
  match calls with
  | [] => self
  | c :: calls => call_hooks calls (call_hook c self).2
  end.

Definition is_sign_on_call (c : hook_call) : bool :=
  match c with
  | OnMessage msg => bool_decide (msg = CIS_CLIENT_INI)
  | OnEof => false
  end.

Definition is_eof_call (c : hook_call) : bool :=
  match c with
  | OnMessage _ => false
  | OnEof => true
  end.

(** *** The properties as the specification words them *)

(** Sign-off count: for every sequence with as many sign-offs as sign-ons,
    [nclients] is back at zero after exactly one of the events, EOF is
    forwarded exactly once, and no EOF is forwarded while a sign-off is
    still to come. *)
Definition sign_off_count_property (comm : option string)
    (evs : list client_event) : Prop :=
  signons evs = signoffs evs →
  length (List.filter
            (fun n => bool_decide (nclients (after comm evs n) = 0%Z))
            (seq 1 (length evs))) = 1
  ∧ eof_forwarded (after comm evs (length evs)) = 1
  ∧ ∀ n, n ≤ length evs → signoffs (take n evs) < signoffs evs →
         eof_forwarded (after comm evs n) = 0.

(** Client count: from a count that is not negative, [on_eof] either
    raises or leaves a count that is not negative. *)
Definition nclients_invariant_property (self : ServerRequestDriver) : Prop :=
  (0 ≤ nclients self)%Z →
  raises (on_eof self).1 ∨ (0 ≤ nclients (on_eof self).2)%Z.

(** Response drivers: every [send_message] with a response address other
    than ['EOF'] appends one started response driver bound to that
    address. *)
Definition response_driver_property (args : list string) (kw : kwargs)
    (self : ServerRequestDriver) : Prop :=
  ∀ ra, response_address self = (Ok ra, self) → ra ≠ "EOF" →
  ∃ d, response_drivers (send_message args kw self).2
       = (response_drivers self ++ [d])%list
       ∧ srd_response_address d = ra
       ∧ srd_started d = true.

End Methods.

End Driver.

(** ** C formats and numpy types of ASCII tables

    The three conversion functions of [cis_interface.dataio.AsciiTable].
    Strings are byte strings; the exceptions are the built-in ones the
    functions raise. *)

Module Table.

Inductive error : Type :=
  | ValueError (msg : string)
  | TypeError (msg : string)
  | IndexError (msg : string)
  | RuntimeError (msg : string)
  | Exception (msg : string).

Inductive outcome (A : Type) : Type :=
  | Return (a : A)
  | Throw (e : error).
Arguments Return {A} a.
Arguments Throw {A} e.

#[global] Instance outcome_ret : MRet outcome := fun A a => Return a.
#[global] Instance outcome_bind : MBind outcome := fun A B f r =>
  match r with
  | Return a => f a
  | Throw e => Throw e
  end.

Definition throws {A} (r : outcome A) : Prop :=
  match r with
  | Return _ => False
  | Throw _ => True
  end.

(** *** Operations of [str] *)

(** [s.startswith(prefix)] *)
Definition startswith (prefix s : string) : bool := String.prefix prefix s.

(** [s[-1]] *)
Fixpoint last_char (s : string) : outcome ascii :=
  match s with
  | "" => Throw (IndexError "string index out of range")
  | String c "" => Return c
  | String _ s => last_char s
  end.

(** [s[-2]] *)
Fixpoint second_last_char (s : string) : outcome ascii :=
  match s with
  | String c (String _ "") => Return c
  | String _ s => second_last_char s
  | "" => Throw (IndexError "string index out of range")
  end.

(** [sub in s] *)
Fixpoint contains (sub s : string) : bool :=
  String.prefix sub s ||
  match s with
  | "" => false
  | String _ s => contains sub s
  end.

(** [s[:-1]] *)
Fixpoint drop_last (s : string) : string :=
  match s with
  | "" => ""
  | String _ "" => ""
  | String c s => String c (drop_last s)
  end.

(** [s[1:-1]] *)
Definition slice_1_m1 (s : string) : string :=
  match s with
  | "" => ""
  | String _ s => drop_last s
  end.

(** [s.replace(c, '')] for a string [c] of one character *)
Fixpoint remove_char (c : ascii) (s : string) : string :=
  match s with
  | "" => ""
  | String a s =>
      if decide (a = c) then remove_char c s else String a (remove_char c s)
  end.

(** [c in [...]] for a list of one-character strings *)
Definition char_in (c : ascii) (chars : string) : bool :=
  bool_decide (c ∈ String.list_ascii_of_string chars).

(** [s.count(c)] for a string [c] of one character *)
Fixpoint count (c : ascii) (s : string) : nat :=
  match s with
  | "" => 0
  | String a s => (if decide (a = c) then 1 else 0) + count c s
  end.

(** [s.split(sep)]: the pieces of [s] between the occurrences of [sep],
    found from the left; [skip] characters of an occurrence are still to
    be passed over, and [piece] is the piece being read. *)
Fixpoint split_go (sep : string) (skip : nat) (piece : string) (s : string)
    : list string :=
  match s with
  | "" => [piece]
  | String c s' =>
      match skip with
      | S skip => split_go sep skip piece s'
      | 0 =>
          if String.prefix sep s
          then piece :: split_go sep (String.length sep - 1) "" s'
          else split_go sep 0 (piece +:+ String c "") s'
      end
  end.

Definition split (sep : string) (s : string) : outcome (list string) :=
  if decide (sep = "") then Throw (ValueError "empty separator")
  else Return (split_go sep 0 "" s).

(** *** [cformat2pyscanf] *)

Definition does_not_start_message (cfmt : string) : string :=
  "Provided C format string (" +:+ cfmt +:+ ") does not start with '%%'".
Definition no_type_info_message (cfmt : string) : string :=
  "Provided C format string (" +:+ cfmt +:+ ") does not contain type info".

Definition cformat2pyscanf (cfmt : string) : outcome string :=
  if negb (startswith "%" cfmt) then
    Throw (ValueError (does_not_start_message cfmt))
  else if String.length cfmt =? 1 then
    Throw (ValueError (no_type_info_message cfmt))
  else
    cc ← last_char cfmt;
    let out := "%" +:+ String cc "" in
    let out := remove_char "h" out in
    let out := remove_char "l" out in
    mret out.

Section Numpy.

(** The numpy library: its data types, [np.dtype(name)] (which raises
    [TypeError] for a name it does not understand), [t.str], [str(t)], and
    the [itemsize] of the types that [np.issubdtype(t, np.dtype("S"))]
    accepts. *)
Context {dtype : Type} `{EqDecision dtype}.
Variable np_dtype : string → option dtype.
Variable dtype_str : dtype → string.
Variable dtype_name : dtype → string.
Variable string_itemsize : dtype → option nat.

Definition new_dtype (name : string) : outcome dtype :=
  match np_dtype name with
  | Some t => Return t
  | None => Throw (TypeError ("data type '" +:+ name +:+ "' not understood"))
  end.

(** *** [cformat2nptype] *)

Definition cformat2nptype (cfmt : string) : outcome string :=
  if negb (startswith "%" cfmt) then
    Throw (ValueError (does_not_start_message cfmt))
  else if String.length cfmt =? 1 then
    Throw (ValueError (no_type_info_message cfmt))
  else
    c ← last_char cfmt;
    out ←
      (if char_in c "fFeEgG" then mret "float64"
       else if char_in c "di" then
         if contains "hh" cfmt then mret "int8"
         else
           c2 ← second_last_char cfmt;
           if decide (c2 = "h"%char) then mret "short"
           else if contains "ll" cfmt then mret "longlong"
           else if decide (c2 = "l"%char) then mret "int_"
           else mret "intc"
       else if char_in c "uoxX" then
         if contains "hh" cfmt then mret "uint8"
         else
           c2 ← second_last_char cfmt;
           if decide (c2 = "h"%char) then mret "ushort"
           else if contains "ll" cfmt then mret "ulonglong"
           else if decide (c2 = "l"%char) then mret "uint64"
           else mret "uintc"
       else if char_in c "cs" then
         let lstr := slice_1_m1 cfmt in
         if decide (lstr ≠ "") then mret ("S" +:+ lstr) else mret "S"
       else
         Throw (ValueError
                  ("Could not find match for format str " +:+ cfmt)));
    t ← new_dtype out;
    mret (dtype_str t).

(** *** [nptype2cformat] *)

(** The argument: a [numpy.dtype], a string, or something else. *)
Inductive nptype_arg : Type :=
  | NpDtype (t : dtype)
  | NpStr (name : string)
  | NpOther.

(** [[np.dtype(x) for x in names]] *)
Fixpoint new_dtypes (names : list string) : outcome (list dtype) :=
  match names with
  | [] => mret []
  | name :: names =>
      t ← new_dtype name; ts ← new_dtypes names; mret (t :: ts)
  end.

(** The chain [elif t == np.dtype(name): cfmt = ...], in its order; each
    [np.dtype(name)] is evaluated when its test is reached. *)
Fixpoint first_equal (t : dtype) (chain : list (string * string))
    (otherwise : outcome string) : outcome string :=
  match chain with
  | [] => otherwise
  | (name, cfmt) :: chain =>
      d ← new_dtype name;
      if decide (t = d) then mret cfmt else first_equal t chain otherwise
  end.

Definition integer_formats : list (string * string) :=
  [("int8", "%hhd"); ("short", "%hd"); ("intc", "%d"); ("int_", "%ld");
   ("longlong", "%lld"); ("uint8", "%hhu"); ("ushort", "%hu");
   ("uintc", "%u"); ("uint64", "%lu"); ("ulonglong", "%llu")].

Definition float_names : list string :=
  ["float_"; "float16"; "float32"; "float64"].

Definition nptype2cformat (nptype : nptype_arg) : outcome string :=
  t ← match nptype with
      | NpDtype t => mret t
      | NpStr name => new_dtype name
      | NpOther => Throw (TypeError "Input must be a string or a numpy.dtype")
      end;
  floats ← new_dtypes float_names;
  if bool_decide (t ∈ floats) then mret "%g"
  else
    first_equal t integer_formats
      match string_itemsize t with
      | Some itemsize =>
          if decide (itemsize = 0) then mret "%s"
          else mret ("%" +:+ pretty itemsize +:+ "s")
      | None =>
          Throw (ValueError ("No format specification string for dtype "
                             +:+ dtype_name t))
      end.

(** *** The format of an [AsciiTable] *)

(** The fields of a structured type, [[t[i] for i in range(len(t))]];
    a type that is not structured has none. *)
Variable dtype_fields : dtype → list dtype.

(** The attributes of an [AsciiTable] that its format depends on;
    [_format_str] and [_dtype] are [None] when the object has no such
    attribute. *)
Record AsciiTable : Type := {
  _format_str : option string;
  _dtype : option dtype;
  column : string;
  newline : string
}.

(** [[nptype2cformat(self.dtype[i]) for i in range(len(self.dtype))]] *)
Fixpoint field_formats (fields : list dtype) : outcome (list string) :=
  match fields with
  | [] => mret []
  | t :: fields =>
      cfmt ← nptype2cformat (NpDtype t);
      cfmts ← field_formats fields;
      mret (cfmt :: cfmts)
  end.

(** The property [AsciiTable.format_str] *)
Definition format_str (self : AsciiTable) : outcome string * AsciiTable :=
  match _format_str self with
  | Some s => (Return s, self)
  | None =>
      match _dtype self with
      | Some d =>
          match field_formats (dtype_fields d) with
          | Return fmts =>
              let s := String.concat (column self) fmts +:+ newline self in
              (Return s,
               {| _format_str := Some s; _dtype := _dtype self;
                  column := column self; newline := newline self |})
          | Throw e => (Throw e, self)
          end
      | None =>
          (Throw (RuntimeError
                    "Format string not set and cannot be determined."),
           self)
      end
  end.

(** The property [AsciiTable.fmts] *)
Definition fmts (self : AsciiTable) : outcome (list string) * AsciiTable :=
  match format_str self with
  | (Return s, self) =>
      (lines ← split (newline self) s;
       match lines with
       | line :: _ => split (column self) line
       | [] => Throw (IndexError "list index out of range")
       end,
       self)
  | (Throw e, self) => (Throw e, self)
  end.

(** The property [AsciiTable.ncols] *)
Definition ncols (self : AsciiTable) : outcome nat * AsciiTable :=
  match format_str self with
  | (Return s, self) => (Return (count "%" s), self)
  | (Throw e, self) => (Throw e, self)
  end.

(** [AsciiTable.update_format_str] *)
Definition update_format_str (new_format_str : string) (self : AsciiTable)
    : AsciiTable :=
  {| _format_str := Some new_format_str; _dtype := None;
     column := column self; newline := newline self |}.

(** [AsciiTable.update_dtype], for a [numpy.dtype] or a string *)
Definition update_dtype (dtype_or_name : dtype + string)
    (self : AsciiTable) : outcome unit * AsciiTable :=
  match (match dtype_or_name with
         | inl t => Return t
         | inr name => new_dtype name
         end) with
  | Return t =>
      (Return (),
       {| _format_str := None; _dtype := Some t;
          column := column self; newline := newline self |})
  | Throw e => (Throw e, self)
  end.

End Numpy.

Arguments AsciiTable : clear implicits.

End Table.

(** ** IPC queue tools

    [cis_interface.tools]: the commands [ipcs] and [ipcrm] run in a shell.
    What a command prints on its error stream and what the functions print
    is left out. *)

Module Tools.

Import Table.

(** [s.split(sep)] for a separator of one character *)
Fixpoint split_on (sep : ascii) (s : string) : list string :=
  match s with
  | "" => [""]
  | String c s =>
      if decide (c = sep) then "" :: split_on sep s
      else match split_on sep s with
           | w :: ws => String c w :: ws
           | [] => [String c ""]
           end
  end.

Section Shell.

(** The shell: the exit code and the output of a command, given the
    commands run before it. *)
Variable exit_code : list string → string → Z.
Variable stdout : list string → string → string.

(** A function that runs commands: the commands run so far go in, the
    result comes out with the commands run since added. *)
Definition Sh (A : Type) : Type := list string → outcome A * list string.

#[global] Instance Sh_ret : MRet Sh := fun A a history => (Return a, history).
#[global] Instance Sh_bind : MBind Sh := fun A B f m history =>
  match m history with
  | (Return a, history') => f a history'
  | (Throw e, history') => (Throw e, history')
  end.

(** [Popen(cmd, ..., shell=True)], [communicate()] and [returncode] *)
Definition Popen (cmd : string) : Sh (Z * string) :=
  fun history =>
    (Return (exit_code history cmd, stdout history cmd), history ++ [cmd]).

Definition throw {A} (e : error) : Sh A := fun history => (Throw e, history).

Definition ipcs (options : list string) : Sh string :=
  let cmd := String.concat " " ("ipcs" :: options) in
  '(exit_code, output) ← Popen cmd;
  if decide (exit_code ≠ 0%Z)
  then throw (Exception "Error on spawned process. See output.")
  else mret output.

Definition skip_lines : list string :=
  ["------ Message Queues --------";
   "key        msqid      owner      perms      used-bytes   messages    ";
   ""].

Definition ipc_queues : Sh (list string) :=
  out ← ipcs ["-q"];
  let out := split_on "010" out in
  mret (filter (fun l => l ∉ skip_lines) out).

Definition ipcrm (options : list string) : Sh unit :=
  let cmd := String.concat " " ("ipcrm" :: options) in
  '(exit_code, output) ← Popen cmd;
  if decide (exit_code ≠ 0%Z)
  then throw (Exception "Error on spawned process. See output.")
  else mret ().

(** The argument [queue_keys]: [None], a string, or a list. *)
Inductive queue_keys_arg : Type :=
  | KeysNone
  | KeysStr (key : string)
  | KeysList (keys : list string).

(** [c.isspace()] for a character below 256 *)
Definition isspace (c : ascii) : bool :=
  let n := nat_of_ascii c in
  ((9 <=? n) && (n <=? 13)) || ((28 <=? n) && (n <=? 32))
  || (n =? 133) || (n =? 160).

(** [s.split()]: the runs of characters that are not white space; [word]
    is the run being read, if any. *)
Fixpoint split_from (word : option string) (s : string) : list string :=
  match s with
  | "" => match word with Some w => [w] | None => [] end
  | String c s =>
      if isspace c
      then match word with
           | Some w => w :: split_from None s
           | None => split_from None s
           end
      else split_from (Some (default "" word +:+ String c "")) s
  end.

Definition split (s : string) : list string := split_from None s.

(** [[l.split()[0] for l in lines]] *)
Fixpoint first_words (lines : list string) : outcome (list string) :=
  match lines with
  | [] => Return []
  | l :: lines =>
      match split l with
      | w :: _ => ws ← first_words lines; mret (w :: ws)
      | [] => Throw (IndexError "list index out of range")
      end
  end.

(** [for q in queue_keys: ipcrm(["-Q %s" % q])] *)
Fixpoint ipcrm_each (queue_keys : list string) : Sh unit :=
  match queue_keys with
  | [] => mret ()
  | q :: queue_keys => _ ← ipcrm ["-Q " +:+ q]; ipcrm_each queue_keys
  end.

Definition ipcrm_queues (queue_keys : queue_keys_arg) : Sh unit :=
  queue_keys ←
    match queue_keys with
    | KeysNone =>
        lines ← ipc_queues;
        match first_words lines with
        | Return keys => mret keys
        | Throw e => throw e
        end
    | KeysStr key => mret [key]
    | KeysList keys => mret keys
    end;
  ipcrm_each queue_keys.

End Shell.

End Tools.

(** ** The output driver of ASCII tables

    [AsciiTableOutputDriver.__init__]: the keyword arguments it hands to
    the constructor of its parent class. *)

Module TableDriver.

Section Kwargs.

(** The values of keyword arguments, with the strings among them, and
    [eval_kwarg] of [cis_interface.tools], a function of another version
    of the module than the one at hand. *)
Context {value : Type}.
Variable str_value : string → value.
Variable eval_kwarg : value → value.

(** The keyword arguments: the [dict] under ['ocomm_kws'], if any, and the
    other keywords. *)
Record kwargs : Type := {
  ocomm_kws : option (gmap string value);
  others : gmap string value
}.

Definition file_keys : list string :=
  ["format_str"; "dtype"; "column_names"; "use_astropy"; "column";
   "as_array"].

Definition evaluated_keys : list string :=
  ["column_names"; "use_astropy"; "as_array"].

(** The body of [for k in file_keys], on [ocomm_kws] and the other
    keywords. *)
Definition move_key (k : string)
    (state : gmap string value * gmap string value)
    : gmap string value * gmap string value :=
  let '(ocomm_kws, others) := state in
  match others !! k with
  | Some v =>
      let ocomm_kws := <[k := v]> ocomm_kws in
      let others := delete k others in
      let ocomm_kws :=
        if bool_decide (k ∈ evaluated_keys)
        then <[k := eval_kwarg v]> ocomm_kws
        else ocomm_kws in
      (ocomm_kws, others)
  | None => (ocomm_kws, others)
  end.

(** [d.setdefault(key, value)] *)
Definition setdefault (key : string) (v : value) (d : gmap string value)
    : gmap string value :=
  match d !! key with
  | Some _ => d
  | None => <[key := v]> d
  end.

(** The keyword arguments [__init__] gives to the parent class. *)
Definition init_kwargs (kw : kwargs) : kwargs :=
  let ocomm_kws := default ∅ (ocomm_kws kw) in
  let ocomm_kws := setdefault "comm" (str_value "AsciiTableComm") ocomm_kws in
  let '(ocomm_kws, others) :=
    foldl (fun state k => move_key k state) (ocomm_kws, others kw) file_keys in
  let ocomm_kws := setdefault "format_str" (str_value "temp") ocomm_kws in
  {| ocomm_kws := Some ocomm_kws; others := others |}.

End Kwargs.

Arguments kwargs : clear implicits.

End TableDriver.

(** ** The RabbitMQ output driver

    [RMQOutputDriver.publish_message] and [stop_communication], on the
    driver's own thread. *)

Module RMQ.

Record RMQOutputDriver : Type := {
  _closing : bool;
  (** [self.channel]: [None], or a channel that is open or not *)
  channel : option bool;
  (** the bodies given to [channel.basic_publish] of an open channel *)
  published : list string;
  (** the calls of [connection.add_timeout(sleeptime, publish_message)] *)
  timeouts : nat;
  (** the calls of [channel.close()] *)
  closed : nat;
  (** the calls of [ipc_recv] *)
  received : nat
}.

(** How a call ends: it returns, or an exception leaves it. *)
Inductive ending : Type :=
  | Returns
  | Raises (e : Py.exception).

Section Methods.

(** [ipc_recv()] of the local queue by the number of calls before it:
    [None] when the queue is closed, else the data, which may be empty. *)
Variable ipc_recv : nat → option string.

Definition publish (data : string) (self : RMQOutputDriver) :=
  {| _closing := _closing self; channel := channel self;
     published := published self ++ [data]; timeouts := timeouts self;
     closed := closed self; received := received self |}.

Definition add_timeout (self : RMQOutputDriver) :=
  {| _closing := _closing self; channel := channel self;
     published := published self; timeouts := S (timeouts self);
     closed := closed self; received := received self |}.

Definition recv (self : RMQOutputDriver) : option string * RMQOutputDriver :=
  (ipc_recv (received self),
   {| _closing := _closing self; channel := channel self;
      published := published self; timeouts := timeouts self;
      closed := closed self; received := S (received self) |}).

(** The [while True] loop of [publish_message]; [None] when the loop has
    not ended within [fuel] turns.  A driver without a channel has no
    [basic_publish], and pika's [basic_publish] raises on a channel that
    is not open. *)
Fixpoint publish_loop (fuel : nat) (self : RMQOutputDriver)
    : option (ending * RMQOutputDriver) :=
  match fuel with
  | 0 => None
  | S fuel =>
      let '(data, self) := recv self in
      match data with
      | None => Some (Returns, self)
      | Some data =>
          if String.length data =? 0 then Some (Returns, add_timeout self)
          else if _closing self then Some (Returns, self)
          else match channel self with
               | None =>
                   Some (Raises (Py.AttributeError "basic_publish"), self)
               | Some false =>
                   Some (Raises (Py.OtherError "ChannelClosed"), self)
               | Some true => publish_loop fuel (publish data self)
               end
      end
  end.

(** [RMQOutputDriver.publish_message] *)
Definition publish_message (fuel : nat) (self : RMQOutputDriver)
    : option (ending * RMQOutputDriver) :=
  if _closing self then Some (Returns, self) else publish_loop fuel self.

(** [RMQOutputDriver.stop_communication]; [channel.close()] leaves the
    channel not open. *)
Definition stop_communication (self : RMQOutputDriver) : RMQOutputDriver :=
  match channel self with
  | Some true =>
      {| _closing := true; channel := Some false;
         published := published self; timeouts := timeouts self;
         closed := S (closed self); received := received self |}
  | _ =>
      {| _closing := true; channel := channel self;
         published := published self; timeouts := timeouts self;
         closed := closed self; received := received self |}
  end.

End Methods.

End RMQ.

(** ** Concrete inputs

    A registry with one scalar class, ['int'], over integer leaves: it
    accepts integer leaves, encodes by negation and decodes by negation. *)

Module Demo.

Import Metaschema.

Definition int_encode (v : pyobj Z) (t : typedef Z) : result (pyobj Z) :=
  match v with
  | PLeaf z => Ok (PLeaf (- z)%Z)
  | PDict _ => Raise TypeError
  end.

Definition int_validate (v : pyobj Z) (t : typedef Z) : bool :=
  match v with
  | PLeaf _ => true
  | PDict _ => false
  end.

Definition int_type : ScalarType Z :=
  {| scalar_encode_data := int_encode;
     scalar_decode_data := int_encode;
     scalar_validate := int_validate |}.

Definition scalar_types : gmap string (ScalarType Z) := {["int" := int_type]}.

Definition encode_untyped (v : pyobj Z) : result (pyobj Z) := Ok v.

Definition int_typedef : typedef Z := Typedef (Some "int") None ∅.

Definition object_typedef (properties : gmap string (typedef Z)) : typedef Z :=
  Typedef (Some "object") (Some properties) ∅.

(** [{'a': 1, 'b': {'c': 2, 'd': {'e': -3}}}] and its typedef. *)
Definition nested_value : pyobj Z :=
  PDict (<["a" := PLeaf 1%Z]>
        (<["b" := PDict (<["c" := PLeaf 2%Z]>
                        (<["d" := PDict {["e" := PLeaf (-3)%Z]}]> ∅))]> ∅)).

Definition nested_typedef : typedef Z :=
  object_typedef
    (<["a" := int_typedef]>
    (<["b" := object_typedef
                (<["c" := int_typedef]>
                (<["d" := object_typedef {["e" := int_typedef]}]> ∅))]> ∅)).

(** Constants and a comm for the driver: the output comm accepts every
    message. *)
Definition CIS_CLIENT_INI : string := "CIS_BEGIN_CLIENT".
Definition eof_msg : string := "EOF!!!".
Definition new_address (n : nat) : string :=
  String.append "address_" (pretty n).
Definition ocomm_send (args : list string) (kw : Driver.kwargs) : bool := true.

(** The header of a request. *)
Definition request_header (id response_address : string)
    : gmap string string :=
  <["id" := id]> {["response_address" := response_address]}.

(** A driver that received a request and whose comm is closed since. *)
Definition closed_driver : Driver.ServerRequestDriver :=
  {| Driver.nclients := 1; Driver.response_drivers := [];
     Driver.comm := None;
     Driver._last_header := Some (request_header "r1" "client_1");
     Driver.is_comm_open := false; Driver.ocomm_sent := [];
     Driver.comm_count := 0 |}.

(** A driver that received a request and whose comm is open. *)
Definition open_driver : Driver.ServerRequestDriver :=
  {| Driver.nclients := 1; Driver.response_drivers := [];
     Driver.comm := None;
     Driver._last_header := Some (request_header "r1" "client_1");
     Driver.is_comm_open := true; Driver.ocomm_sent := [];
     Driver.comm_count := 0 |}.

(** Properties over string objects; the validator knows the type
    ['string'] only. *)
Definition is_type (validator : unit) (instance : string) (t : string) : bool :=
  bool_decide (t = "string").

Definition default_property : Property.MetaschemaProperty string unit :=
  {| Property.name := "title"; Property.types := ["string"];
     Property._encode := Some (fun instance _ => Ok instance);
     Property._validate := Property.ValidateNone;
     Property._compare := None |}.

(** The same property with a comparison function of its own, which reports
    every pair of values. *)
Definition comparing_property : Property.MetaschemaProperty string unit :=
  {| Property.name := "title"; Property.types := ["string"];
     Property._encode := Some (fun instance _ => Ok instance);
     Property._validate := Property.ValidateNone;
     Property._compare := Some (fun prop1 prop2 => Ok ["mismatch"]) |}.

(** The base validators: one for ['title'], which reports every
    instance. *)
Definition VALIDATORS
    : gmap string (unit → string → string → string → result (list string)) :=
  {["title" := fun _ _ _ _ => Ok ["base"]]}.

(** The same property with validation switched off. *)
Definition disabled_property : Property.MetaschemaProperty string unit :=
  {| Property.name := "title"; Property.types := ["string"];
     Property._encode := Some (fun instance _ => Ok instance);
     Property._validate := Property.ValidateFalse;
     Property._compare := None |}.

(** A numpy with the types of a 64-bit Linux, and the byte strings of
    lengths 0 and 5. *)
Inductive np_type : Type :=
  | Float16 | Float32 | Float64
  | Int8 | Int16 | Int32 | Int64
  | UInt8 | UInt16 | UInt32 | UInt64
  | Bytes (itemsize : nat).

#[global] Instance np_type_eq_dec : EqDecision np_type.
Proof. solve_decision. Defined.

Definition np_names : gmap string np_type :=
  list_to_map
    [("float_", Float64); ("float16", Float16); ("float32", Float32);
     ("float64", Float64); ("int8", Int8); ("short", Int16);
     ("intc", Int32); ("int_", Int64); ("longlong", Int64);
     ("uint8", UInt8); ("ushort", UInt16); ("uintc", UInt32);
     ("uint64", UInt64); ("ulonglong", UInt64); ("S", Bytes 0);
     ("S5", Bytes 5)].

Definition np_dtype (name : string) : option np_type := np_names !! name.

Definition np_str (t : np_type) : string :=
  match t with
  | Float16 => "<f2" | Float32 => "<f4" | Float64 => "<f8"
  | Int8 => "|i1" | Int16 => "<i2" | Int32 => "<i4" | Int64 => "<i8"
  | UInt8 => "|u1" | UInt16 => "<u2" | UInt32 => "<u4" | UInt64 => "<u8"
  | Bytes n => "|S" +:+ pretty n
  end.

Definition np_itemsize (t : np_type) : option nat :=
  match t with
  | Bytes n => Some n
  | _ => None
  end.

Definition np_name (t : np_type) : string :=
  match t with
  | Float16 => "float16" | Float32 => "float32" | Float64 => "float64"
  | Int8 => "int8" | Int16 => "int16" | Int32 => "int32" | Int64 => "int64"
  | UInt8 => "uint8" | UInt16 => "uint16" | UInt32 => "uint32"
  | UInt64 => "uint64"
  | Bytes n => "|S" +:+ pretty n
  end.

(** The same numpy with structured types: a type is a simple type or a
    record of simple types. *)
Definition np_record : Type := np_type + list np_type.

Definition record_dtype (name : string) : option np_record :=
  inl <$> np_dtype name.

Definition record_name (t : np_record) : string :=
  match t with
  | inl t => np_name t
  | inr _ => "record"
  end.

Definition record_itemsize (t : np_record) : option nat :=
  match t with
  | inl t => np_itemsize t
  | inr _ => None
  end.

Definition record_fields (t : np_record) : list np_record :=
  match t with
  | inl _ => []
  | inr fields => inl <$> fields
  end.

(** A table with a format string of one column, tabs between columns. *)
Definition table : Table.AsciiTable np_record :=
  {| Table._format_str := Some ("%d" +:+ String "010" "");
     Table._dtype := None;
     Table.column := String "009" "";
     Table.newline := String "010" "" |}.

(** A driver that received a message whose header has no id. *)
Definition no_id_driver : Driver.ServerRequestDriver :=
  {| Driver.nclients := 1; Driver.response_drivers := [];
     Driver.comm := None;
     Driver._last_header := Some {["response_address" := "client_1"]};
     Driver.is_comm_open := true; Driver.ocomm_sent := [];
     Driver.comm_count := 0 |}.

(** A shell in which a command fails when it was run before (a queue is
    removed once), and in which [ipcs -q] prints its header, one queue and
    a line with a blank. *)
Definition exit_code (history : list string) (cmd : string) : Z :=
  if bool_decide (cmd ∈ history) then 1%Z else 0%Z.

Definition queues_output : string :=
  "------ Message Queues --------"
  +:+ String "010" ("0x0000002a 3          user       600        0            0"
  +:+ String "010" (" " +:+ String "010" "")).

Definition stdout (history : list string) (cmd : string) : string :=
  if decide (cmd = "ipcs -q") then queues_output else "".

(** A local queue that gives two messages, then is empty, then closed. *)
Definition ipc_recv (n : nat) : option string :=
  match n with
  | 0 => Some "a"
  | 1 => Some "b"
  | 2 => Some ""
  | _ => None
  end.

Definition rmq_driver : RMQ.RMQOutputDriver :=
  {| RMQ._closing := false; RMQ.channel := Some true; RMQ.published := [];
     RMQ.timeouts := 0; RMQ.closed := 0; RMQ.received := 0 |}.

End Demo.

(** * Properties *)

(** ** Container encode/decode *)

Section ContainerProperties.

Import Metaschema.

Context {leaf : Type}.
Variable scalar_types : gmap string (ScalarType leaf).
Variable encode_untyped : pyobj leaf → result (pyobj leaf).

#[local] Abbreviation encode_data := (encode_data scalar_types encode_untyped).
#[local] Abbreviation decode_data := (decode_data scalar_types).
#[local] Abbreviation described := (described scalar_types).
#[local] Abbreviation get_type_class := (get_type_class scalar_types).

Lemma get_element_lookup {A} (container : gmap string A) index default :
  _get_element container index default
  = from_option id default (container !! index).
Proof.
  unfold _get_element, _has_element.
  by destruct (container !! index).
Qed.

(** The loop either assigns the body's result at every key of [obj], or
    raises what the body raised at some item. *)
Lemma assign_each_spec {A B} (body : string → A → result B) (obj : gmap string A) :
  match assign_each body obj with
  | Ok container =>
      ∀ k, match obj !! k with
           | Some v => ∃ x, body k v = Ok x ∧ container !! k = Some x
           | None => container !! k = None
           end
  | Raise e => ∃ k v, obj !! k = Some v ∧ body k v = Raise e
  end.
Proof.
  unfold assign_each, _iterate.
  induction obj as [|i x m Hi Hfirst IH] using map_first_key_ind.
  - rewrite map_fold_empty. intros k. by rewrite !lookup_empty.
  - rewrite map_fold_insert_first_key by done.
    destruct (map_fold _ _ m) as [container|e]; simpl.
    + destruct (body i x) as [y|e] eqn:Hbody; simpl.
      * intros k. unfold _assign. destruct (decide (i = k)) as [->|Hne].
        -- rewrite !lookup_insert_eq. eauto.
        -- rewrite !lookup_insert_ne by done. apply IH.
      * exists i, x. by rewrite lookup_insert_eq.
    + destruct IH as (k & v & Hk & Hbody). exists k, v. split; [|done].
      rewrite lookup_insert_ne; [done | congruence].
Qed.

Lemma assign_each_ok {A B} (body : string → A → result B) (obj : gmap string A) :
  (∀ k v, obj !! k = Some v → ∃ x, body k v = Ok x) →
  ∃ container, assign_each body obj = Ok container
    ∧ ∀ k, match obj !! k with
           | Some v => ∃ x, body k v = Ok x ∧ container !! k = Some x
           | None => container !! k = None
           end.
Proof.
  intros Hall. pose proof (assign_each_spec body obj) as Hspec.
  destruct (assign_each body obj) as [container|e]; [eauto|].
  destruct Hspec as (k & v & Hk & Hbody).
  destruct (Hall k v Hk) as [x Hx]. congruence.
Qed.

Lemma map_forallb_spec {A} (f : string → A → bool) (m : gmap string A) :
  map_forallb f m = true ↔ ∀ k v, m !! k = Some v → f k v = true.
Proof.
  unfold map_forallb.
  induction m as [|i x m Hi Hfirst IH] using map_first_key_ind.
  - rewrite map_fold_empty. split; [|done]. intros _ k v. by rewrite lookup_empty.
  - rewrite map_fold_insert_first_key by done.
    rewrite andb_true_iff, IH. split.
    + intros [Hx Hm] k v. destruct (decide (i = k)) as [->|Hne].
      * rewrite lookup_insert_eq. congruence.
      * rewrite lookup_insert_ne by done. apply Hm.
    + intros Hall. split.
      * apply Hall. by rewrite lookup_insert_eq.
      * intros k v Hk. apply Hall. rewrite lookup_insert_ne; [done | congruence].
Qed.

Lemma depth_lookup (m : gmap string (pyobj leaf)) k v :
  m !! k = Some v → depth v < depth (PDict m).
Proof.
  simpl. revert k v.
  induction m as [|i x m Hi Hfirst IH] using map_first_key_ind; intros k v.
  - by rewrite lookup_empty.
  - rewrite map_fold_insert_first_key by done.
    destruct (decide (i = k)) as [->|Hne].
    + rewrite lookup_insert_eq. intros [= ->]. lia.
    + rewrite lookup_insert_ne by done. intros Hk. specialize (IH k v Hk). lia.
Qed.

Lemma get_type_class_object :
  get_type_class "object" = Ok JSONObjectMetaschemaType.
Proof. unfold Metaschema.get_type_class, registry. by rewrite lookup_insert_eq. Qed.

Lemma get_type_class_scalar name c :
  name ≠ "object" → scalar_types !! name = Some c →
  get_type_class name = Ok (ScalarMetaschemaType c).
Proof.
  intros Hne Hc. unfold Metaschema.get_type_class, registry.
  rewrite lookup_insert_ne by done. by rewrite lookup_fmap, Hc.
Qed.

Lemma get_type_class_unregistered name :
  name ≠ "object" → scalar_types !! name = None →
  get_type_class name = Raise (TypeResolutionError name).
Proof.
  intros Hne Hc. unfold Metaschema.get_type_class, registry.
  rewrite lookup_insert_ne by done. by rewrite lookup_fmap, Hc.
Qed.

Lemma described_unfold (obj : pyobj leaf) (T : typedef leaf) :
  described obj T =
  match td_type T with
  | None => false
  | Some name =>
      if decide (name = "object") then
        match obj with
        | PLeaf _ => false
        | PDict m =>
            map_forallb
              (fun k v =>
                 match td_properties T ≫= (.!! k) with
                 | Some vtypedef => described v vtypedef
                 | None => false
                 end)
              m
        end
      else
        match scalar_types !! name with
        | Some c => scalar_validate c obj T
        | None => false
        end
  end.
Proof. by destruct obj. Qed.

Section RoundTrip.

(** Every registered scalar class decodes what it encoded, for the values it
    accepts. *)
Hypothesis scalar_round_trip : ∀ name c v t,
  scalar_types !! name = Some c →
  scalar_validate c v t = true →
  ∃ e, scalar_encode_data c v t = Ok e ∧ scalar_decode_data c e t = Ok v.

Lemma round_trip_depth n : ∀ (v : pyobj leaf) (T : typedef leaf),
  depth v < n →
  td_type T = Some "object" →
  described v T = true →
  ∃ e, encode_data v T = Ok e ∧ decode_data e T = Ok v.
Proof.
  induction n as [|n IH]; [lia|]. intros v T Hdepth HT Hvalid.
  destruct v as [x|m]; simpl in Hvalid; rewrite HT in Hvalid; [done|].
  assert (Hsub : ∀ k v, m !! k = Some v → depth v < n).
  { intros k v Hk. pose proof (depth_lookup m k v Hk). lia. }
  clear Hdepth. simpl in Hvalid. pose proof (proj1 (map_forallb_spec _ _) Hvalid) as Hvalid'.
  clear Hvalid; rename Hvalid' into Hvalid.
  set (enc_body := fun (k : string) (v : pyobj leaf) =>
    dispatch_encode_data scalar_types encode_untyped encode_data v
      (match td_properties T with
       | Some properties => _get_element (Some <$> properties) k None
       | None => None
       end)).
  set (dec_body := fun (k : string) (v : pyobj leaf) =>
    properties ← typedef_properties T;
    let vtypedef := _get_element properties k empty_typedef in
    name ← typedef_type vtypedef;
    vcls ← get_type_class name;
    match vcls with
    | JSONObjectMetaschemaType => decode_data v vtypedef
    | ScalarMetaschemaType c => scalar_decode_data c v vtypedef
    end).
  assert (Helem : ∀ k v, m !! k = Some v →
            ∃ x, enc_body k v = Ok x ∧ dec_body k x = Ok v).
  { intros k v Hk. specialize (Hvalid k v Hk). simpl in Hvalid.
    unfold enc_body, dec_body, typedef_properties.
    destruct (td_properties T) as [properties|]; simpl in *; [|done].
    rewrite !get_element_lookup, lookup_fmap.
    destruct (properties !! k) as [vt|]; simpl in *; [|done].
    unfold dispatch_encode_data, typedef_type.
    assert (Hv := Hvalid). rewrite described_unfold in Hv.
    destruct (td_type vt) as [name|] eqn:Hname; simpl; [|done].
    destruct (decide (name = "object")) as [->|Hne].
    - rewrite get_type_class_object. simpl.
      apply IH; [by eapply Hsub|done..].
    - destruct (scalar_types !! name) as [c|] eqn:Hc; [|done].
      rewrite (get_type_class_scalar name c) by done. simpl.
      eauto. }
  destruct (assign_each_ok enc_body m) as (c & Hc & Hspec).
  { intros k v Hk. destruct (Helem k v Hk) as (x & Hx & _). eauto. }
  exists (PDict c). split.
  { simpl. fold enc_body. by rewrite Hc. }
  simpl. fold dec_body.
  pose proof (assign_each_spec dec_body c) as Hdec.
  destruct (assign_each dec_body c) as [c'|e].
  - simpl. do 2 f_equal. apply map_eq. intros k.
    specialize (Hdec k). specialize (Hspec k).
    destruct (m !! k) as [v|] eqn:Hk.
    + destruct Hspec as (x & Hx & Hcx). rewrite Hcx in Hdec.
      destruct Hdec as (y & Hy & Hcy).
      destruct (Helem k v Hk) as (x' & Hx' & Hback).
      congruence.
    + by rewrite Hspec in Hdec.
  - destruct Hdec as (k & x & Hcx & Hraise). specialize (Hspec k).
    destruct (m !! k) as [v|] eqn:Hk; [|congruence].
    destruct Hspec as (x' & Hx' & Hcx').
    destruct (Helem k v Hk) as (x'' & Hx'' & Hback).
    congruence.
Qed.

(** X25.  A value that an object typedef describes item by item, with a
    typedef of its own for every item at every depth, is decoded, under
    the same typedef, to itself from its encoding, when every scalar class
    decodes what it encodes; the nesting depth of the value is arbitrary
    (containers inside containers are encoded through the generic
    dispatcher with the per-element typedef and decoded by the class the
    registry resolves). *)
Theorem container_round_trip (v : pyobj leaf) (T : typedef leaf) :
  td_type T = Some "object" →
  described v T = true →
  (encode_data v T ≫= fun e => decode_data e T) = Ok v.
Proof.
  intros HT Hvalid.
  destruct (round_trip_depth (S (depth v)) v T) as (e & He & Hd); [lia|done..|].
  by rewrite He.
Qed.

End RoundTrip.

(** C1, at an item without a typedef.  Under the typedef
    [{'type': 'object', 'properties': {}}], which constrains no item,
    [encode_data] of a [dict] with one item hands the item to the
    dispatcher with no typedef and returns a [dict] with what the
    dispatcher gives; [decode_data] of that [dict] under the same typedef
    raises [KeyError('type')], whatever the item, the registry and the
    dispatcher are: the round trip does not give the value back. *)
Theorem round_trip_missing_entry (key : string) (item : pyobj leaf) :
  let v := PDict {[key := item]} in
  let T := Typedef (Some "object") (Some ∅) ∅ in
  encode_data v T = (fun e => PDict {[key := e]}) <$> encode_untyped item
  ∧ (encode_data v T ≫= fun e => decode_data e T)
    = match encode_untyped item with
      | Ok _ => Raise (KeyError "type")
      | Raise e => Raise e
      end
  ∧ (encode_data v T ≫= fun e => decode_data e T) ≠ Ok v.
Proof.
  intros v T.
  assert (Henc : encode_data v T
                 = (fun e => PDict {[key := e]}) <$> encode_untyped item).
  { unfold v, T. cbn [Metaschema.encode_data td_properties].
    unfold assign_each, _iterate. rewrite map_fold_singleton.
    rewrite get_element_lookup, lookup_fmap, lookup_empty. simpl.
    destruct (encode_untyped item) as [e|e]; [|done].
    simpl. unfold _assign, _container_type. by rewrite insert_empty. }
  assert (Htrip : (encode_data v T ≫= fun e => decode_data e T)
                  = match encode_untyped item with
                    | Ok _ => Raise (KeyError "type")
                    | Raise e => Raise e
                    end).
  { rewrite Henc. destruct (encode_untyped item) as [e|e]; [|done].
    unfold T. simpl. unfold assign_each, _iterate.
    rewrite map_fold_singleton. simpl.
    by rewrite get_element_lookup, lookup_empty. }
  split; [done|]. split; [done|].
  rewrite Htrip. by destruct (encode_untyped item).
Qed.

(** C4, as the code has it.  When the property map has no entry for the key
    of an item, [_get_element] hands back the empty typedef rather than
    raising, and [decode_data] does not fall back to a type for the item:
    it raises and returns no container.  When the other items of the
    [dict] decode, the exception is the [KeyError('type')] of reading the
    ['type'] of the empty typedef. *)
Theorem decode_data_missing_entry_raises
    (m : gmap string (pyobj leaf)) (T : typedef leaf)
    (properties : gmap string (typedef leaf)) (k : string) (v : pyobj leaf) :
  td_properties T = Some properties →
  m !! k = Some v →
  properties !! k = None →
  _get_element properties k empty_typedef = empty_typedef
  ∧ raises (decode_data (PDict m) T)
  ∧ (∀ others, decode_data (PDict (delete k m)) T = Ok others →
       decode_data (PDict m) T = Raise (KeyError "type")).
Proof.
  intros HT Hk Hmissing. split; [by rewrite get_element_lookup, Hmissing|].
  cbn [Metaschema.decode_data].
  match goal with |- context [assign_each ?body m] =>
    set (dec_body := body)
  end.
  assert (Hitem : dec_body k v = Raise (KeyError "type")).
  { unfold dec_body, typedef_properties. rewrite HT. simpl.
    by rewrite get_element_lookup, Hmissing. }
  pose proof (assign_each_spec dec_body m) as Hspec.
  split.
  - destruct (assign_each dec_body m) as [c|e]; [|done].
    specialize (Hspec k). rewrite Hk in Hspec.
    destruct Hspec as (x & Hx & _). congruence.
  - intros others Hothers.
    pose proof (assign_each_spec dec_body (delete k m)) as Hrest.
    destruct (assign_each dec_body (delete k m)) as [c'|e']; [|done].
    destruct (assign_each dec_body m) as [c|e].
    + specialize (Hspec k). rewrite Hk in Hspec.
      destruct Hspec as (x & Hx & _). congruence.
    + destruct Hspec as (k' & v' & Hk' & Hraise).
      destruct (decide (k' = k)) as [->|Hne].
      * simpl. congruence.
      * specialize (Hrest k'). rewrite lookup_delete_ne in Hrest by done.
        rewrite Hk' in Hrest. destruct Hrest as (x & Hx & _). congruence.
Qed.

(** *** More on the container methods *)

Lemma assign_each_ext {A B} (body1 body2 : string → A → result B)
    (obj : gmap string A) :
  (∀ k v, obj !! k = Some v → body1 k v = body2 k v) →
  assign_each body1 obj = assign_each body2 obj.
Proof.
  unfold assign_each, _iterate.
  induction obj as [|i x m Hi Hfirst IH] using map_first_key_ind; intros Hext.
  - by rewrite !map_fold_empty.
  - rewrite !map_fold_insert_first_key by done.
    rewrite IH.
    + by rewrite (Hext i x) by apply lookup_insert_eq.
    + intros k v Hk. apply Hext. rewrite lookup_insert_ne; [done|congruence].
Qed.

Lemma assign_each_dom {A B} (body : string → A → result B)
    (obj : gmap string A) (container : gmap string B) :
  assign_each body obj = Ok container → dom container = dom obj.
Proof.
  intros Hok. pose proof (assign_each_spec body obj) as Hspec.
  rewrite Hok in Hspec. apply set_eq. intros k. rewrite !elem_of_dom.
  specialize (Hspec k). destruct (obj !! k) as [v|].
  - destruct Hspec as (x & _ & ->). split; eauto.
  - rewrite Hspec. done.
Qed.

(** X5.  Encoding and decoding keep the keys: what [encode_data] or
    [decode_data] returns for a [dict] is a [dict] with exactly the keys of
    the one it was given. *)
Theorem encode_decode_keep_keys (m : gmap string (pyobj leaf))
    (T : typedef leaf) (e : pyobj leaf) :
  encode_data (PDict m) T = Ok e ∨ decode_data (PDict m) T = Ok e →
  ∃ c, e = PDict c ∧ dom c = dom m.
Proof.
  simpl. intros [H|H];
    match type of H with context [assign_each ?body m] =>
      destruct (assign_each body m) as [c|err] eqn:Hc; [|done]
    end; simpl in H; injection H as <-;
    exists c; (split; [done|]); by eapply assign_each_dom.
Qed.

(** X6.  [decode_data] returns only when every item of the [dict] has a
    typedef of its own in the property map, with a ['type'] that the
    registry resolves. *)
Theorem decode_data_needs_typedefs (m : gmap string (pyobj leaf))
    (T : typedef leaf) (e : pyobj leaf) (k : string) (v : pyobj leaf) :
  decode_data (PDict m) T = Ok e →
  m !! k = Some v →
  ∃ properties vtypedef name cls,
    td_properties T = Some properties
    ∧ properties !! k = Some vtypedef
    ∧ td_type vtypedef = Some name
    ∧ get_type_class name = Ok cls.
Proof.
  simpl. intros Hok Hk.
  match type of Hok with context [assign_each ?body m] =>
    pose proof (assign_each_spec body m) as Hspec;
    destruct (assign_each body m) as [c|err]; [|done]
  end.
  specialize (Hspec k). rewrite Hk in Hspec. destruct Hspec as (x & Hx & _).
  unfold typedef_properties in Hx.
  destruct (td_properties T) as [properties|] eqn:HT; [|done]. simpl in Hx.
  rewrite get_element_lookup in Hx.
  destruct (properties !! k) as [vtypedef|] eqn:Hvt; [|done]. simpl in Hx.
  unfold typedef_type in Hx.
  destruct (td_type vtypedef) as [name|] eqn:Hname; [|done]. simpl in Hx.
  destruct (get_type_class name) as [cls|] eqn:Hcls; [|done].
  by exists properties, vtypedef, name, cls.
Qed.

(** X7.  Under a typedef with no ['properties'], [decode_data] returns the
    empty [dict] for the empty [dict] and raises [KeyError('properties')]
    for any other, whereas [encode_data] hands every item to the dispatcher
    with no typedef. *)
Theorem without_properties (m : gmap string (pyobj leaf)) (T : typedef leaf) :
  td_properties T = None →
  (m = ∅ → decode_data (PDict m) T = Ok (PDict ∅))
  ∧ (m ≠ ∅ → decode_data (PDict m) T = Raise (KeyError "properties"))
  ∧ encode_data (PDict m) T
    = PDict <$> assign_each (fun _ v => encode_untyped v) m.
Proof.
  intros HT. split; [|split].
  - intros ->. reflexivity.
  - intros Hne. simpl.
    match goal with |- context [assign_each ?body m] =>
      pose proof (assign_each_spec body m) as Hspec;
      destruct (assign_each body m) as [c|err]
    end.
    + destruct (map_choose m Hne) as (k & v & Hk).
      specialize (Hspec k). rewrite Hk in Hspec.
      destruct Hspec as (x & Hx & _).
      unfold typedef_properties in Hx. by rewrite HT in Hx.
    + destruct Hspec as (k & v & _ & Hraise).
      unfold typedef_properties in Hraise. rewrite HT in Hraise.
      simpl in Hraise. by injection Hraise as <-.
  - simpl. f_equal. apply assign_each_ext. intros k v _. by rewrite HT.
Qed.

(** X8.  Only the entries of the property map at the keys of the [dict]
    count: two typedefs whose property maps agree on these keys encode the
    [dict] alike and decode it alike, whatever their other entries, their
    own ['type'] included. *)
Theorem typedef_other_entries_ignored (m : gmap string (pyobj leaf))
    (T T' : typedef leaf) (properties properties' : gmap string (typedef leaf)) :
  td_properties T = Some properties →
  td_properties T' = Some properties' →
  (∀ k, is_Some (m !! k) → properties !! k = properties' !! k) →
  encode_data (PDict m) T = encode_data (PDict m) T'
  ∧ decode_data (PDict m) T = decode_data (PDict m) T'.
Proof.
  intros HT HT' Hagree. simpl. split; f_equal; apply assign_each_ext;
    intros k v Hk; unfold typedef_properties; rewrite HT, HT'; simpl;
    rewrite !get_element_lookup, ?lookup_fmap, (Hagree k) by eauto; done.
Qed.

(** X9.  Assigning every item that [_iterate] yields into a fresh container
    gives the container back. *)
Theorem iterate_assign_copy {A} (container : gmap string A) :
  _iterate container (fun k v acc => _assign acc k v) _container_type
  = container.
Proof.
  unfold _iterate, _assign, _container_type.
  induction container as [|i x m Hi Hfirst IH] using map_first_key_ind.
  - apply map_fold_empty.
  - rewrite map_fold_insert_first_key by done. by rewrite IH.
Qed.

End ContainerProperties.

(** ** The server request driver *)

Section DriverProperties.

Import Driver.

Variable CIS_CLIENT_INI : string.
Variable eof_msg : string.
Variable new_address : nat → string.
Variable ocomm_send : list string → kwargs → bool.

#[local] Abbreviation on_eof := (on_eof eof_msg).
#[local] Abbreviation on_message := (on_message CIS_CLIENT_INI).
#[local] Abbreviation send_message := (send_message new_address ocomm_send).
#[local] Abbreviation ConnectionDriver_send_message :=
  (ConnectionDriver_send_message ocomm_send).
#[local] Abbreviation run_loop :=
  (run_loop CIS_CLIENT_INI eof_msg new_address ocomm_send).
#[local] Abbreviation run :=
  (run CIS_CLIENT_INI eof_msg new_address ocomm_send).
#[local] Abbreviation to_event := (to_event CIS_CLIENT_INI).
#[local] Abbreviation after :=
  (after CIS_CLIENT_INI eof_msg new_address ocomm_send).
#[local] Abbreviation eof_forwarded := (eof_forwarded eof_msg).

(** Unfolds the monadic plumbing of a method applied to a driver. *)
#[local] Ltac run_method :=
  cbv [mbind M_bind mret M_ret modify gets raise last_header getitem
       ConnectionDriver_on_eof ConnectionDriver_on_message];
  cbn.

(** [on_eof], case by case. *)
Lemma on_eof_unfold (self : ServerRequestDriver) :
  on_eof self
  = if decide (nclients self = 1%Z) then
      match _last_header self with
      | Some h =>
          (Ok eof_msg,
           set_last_header (Some (<["response_address" := "EOF"]> h))
             (set_nclients 0 self))
      | None => (Raise (AttributeError "_last_header"), set_nclients 0 self)
      end
    else (Ok "", set_nclients (nclients self - 1) self).
Proof.
  unfold Driver.on_eof. run_method.
  destruct (decide (nclients self = 1%Z)) as [H1|H1].
  - rewrite H1. simpl. by destruct (_last_header self).
  - destruct (decide (nclients self - 1 = 0)%Z); [lia|done].
Qed.

(** C6.  [on_message] returns any message but the sign-on sentinel as it
    is and leaves [nclients] as it is; for the sentinel it makes
    [nclients] exactly one more and returns the empty message, which the
    pump does not forward: a turn of the pump on the sentinel sends nothing
    to the output comm.  [on_message] changes nothing else of the
    driver. *)
Theorem on_message_sign_on (msg : string) (self : ServerRequestDriver)
    (header : gmap string string) :
  (on_message msg self).1
  = Ok (if decide (msg = CIS_CLIENT_INI) then "" else msg)
  ∧ nclients (on_message msg self).2
    = (if decide (msg = CIS_CLIENT_INI) then nclients self + 1
       else nclients self)%Z
  ∧ (response_drivers (on_message msg self).2 = response_drivers self
     ∧ comm (on_message msg self).2 = comm self
     ∧ _last_header (on_message msg self).2 = _last_header self
     ∧ is_comm_open (on_message msg self).2 = is_comm_open self
     ∧ ocomm_sent (on_message msg self).2 = ocomm_sent self
     ∧ comm_count (on_message msg self).2 = comm_count self)
  ∧ ocomm_sent (run_loop (Message header CIS_CLIENT_INI) self).2
    = ocomm_sent self
  ∧ nclients (run_loop (Message header CIS_CLIENT_INI) self).2
    = (nclients self + 1)%Z.
Proof.
  split; [|split; [|split]].
  - unfold Driver.on_message. by destruct (decide (msg = CIS_CLIENT_INI)).
  - unfold Driver.on_message. by destruct (decide (msg = CIS_CLIENT_INI)).
  - unfold Driver.on_message.
    by destruct (decide (msg = CIS_CLIENT_INI)); repeat split.
  - unfold Driver.run_loop, recv_message, Driver.on_message.
    rewrite decide_True by done. by split.
Qed.

(** C3, as the code has it.  [on_message] never lowers [nclients]; [on_eof]
    lowers it by exactly one whatever its value, so [nclients >= 0] holds
    after [on_eof] exactly when [nclients >= 1] held before; at
    [nclients = 0] a sign-off raises nothing: it returns the empty message
    and leaves [nclients] at [-1]. *)
Theorem nclients_after_step (msg : string) (self : ServerRequestDriver) :
  nclients (on_message msg self).2
  = (if decide (msg = CIS_CLIENT_INI)
     then nclients self + 1 else nclients self)%Z
  ∧ nclients (on_eof self).2 = (nclients self - 1)%Z
  ∧ ((0 ≤ nclients (on_eof self).2)%Z ↔ (1 ≤ nclients self)%Z)
  ∧ on_eof (set_nclients 0 self) = (Ok "", set_nclients (-1) self).
Proof.
  assert (Heof : nclients (on_eof self).2 = (nclients self - 1)%Z).
  { rewrite on_eof_unfold. destruct (decide _) as [H1|]; [|done].
    rewrite H1. by destruct (_last_header self). }
  split; [|split; [done|split]].
  - unfold Driver.on_message. by case_decide.
  - rewrite Heof. lia.
  - reflexivity.
Qed.

(** C10.  With a response address other than ['EOF'] and the comm not open,
    [send_message] returns [False] and leaves the driver as it was: no
    response driver, nothing sent to the output comm. *)
Theorem send_message_comm_closed (args : list string) (kw : kwargs)
    (self : ServerRequestDriver) (ra : string) :
  response_address self = (Ok ra, self) →
  ra ≠ "EOF" →
  is_comm_open self = false →
  send_message args kw self = (Ok false, self).
Proof.
  intros Hra Hne Hclosed. unfold Driver.send_message.
  cbv [mbind M_bind]. rewrite Hra. rewrite decide_True by done.
  cbv [gets]. by rewrite Hclosed.
Qed.

Lemma response_address_lookup (self : ServerRequestDriver) h ra :
  _last_header self = Some h → h !! "response_address" = Some ra →
  response_address self = (Ok ra, self).
Proof.
  intros Hh Hra. unfold response_address, last_header, getitem.
  cbv [mbind M_bind gets]. rewrite Hh. simpl. by rewrite Hra.
Qed.

Lemma request_id_lookup (self : ServerRequestDriver) h rid :
  _last_header self = Some h → h !! "id" = Some rid →
  request_id self = (Ok rid, self).
Proof.
  intros Hh Hid. unfold request_id, last_header, getitem.
  cbv [mbind M_bind gets]. rewrite Hh. simpl. by rewrite Hid.
Qed.

Lemma send_message_eof (args : list string) (kw : kwargs)
    (self : ServerRequestDriver) h :
  _last_header self = Some h → h !! "response_address" = Some "EOF" →
  send_message args kw self = ConnectionDriver_send_message args kw self.
Proof.
  intros Hh Hra. unfold Driver.send_message. cbv [mbind M_bind].
  by rewrite (response_address_lookup self h "EOF").
Qed.

(** C9.  When [on_eof] brings [nclients] from one to zero, it writes ['EOF']
    over the response address of the last header and then returns what the
    base class's [on_eof] returns; on the driver it leaves, [send_message]
    is the base class's [send_message]: no response driver is created and
    [response_drivers] is as before. *)
Theorem on_eof_last_client (self : ServerRequestDriver)
    (h : gmap string string) (args : list string) (kw : kwargs) :
  nclients self = 1%Z →
  _last_header self = Some h →
  let self' :=
    set_last_header (Some (<["response_address" := "EOF"]> h))
      (set_nclients 0 self) in
  on_eof self = ConnectionDriver_on_eof eof_msg self'
  ∧ response_address self' = (Ok "EOF", self')
  ∧ send_message args kw self' = ConnectionDriver_send_message args kw self'
  ∧ response_drivers (send_message args kw self').2 = response_drivers self.
Proof.
  intros Hn Hh self'.
  assert (Hra : response_address self' = (Ok "EOF", self')).
  { apply (response_address_lookup _ (<["response_address" := "EOF"]> h));
      [done | apply lookup_insert_eq]. }
  assert (Hsend : send_message args kw self'
                  = ConnectionDriver_send_message args kw self').
  { apply (send_message_eof _ _ _ (<["response_address" := "EOF"]> h));
      [done | apply lookup_insert_eq]. }
  split; [|split; [done|split; [done|]]].
  - rewrite on_eof_unfold, decide_True by done. by rewrite Hh.
  - by rewrite Hsend.
Qed.

(** C5, as the code has it.  When the last header's response address is
    ['EOF'], [send_message] is the base class's [send_message] on the same
    arguments.  Otherwise, when the comm is open and the header has an
    ['id'], exactly one [ServerResponseDriver] is created for that response
    address, the driver's comm class and that id, started, and appended to
    [response_drivers]; the base class's [send_message] then gets
    [send_header] and, in [header_kwargs], the new driver's
    [model_response_address] and the id, each unless the caller gave the
    keyword or entry itself. *)
Theorem send_message_response_driver (args : list string) (kw : kwargs)
    (self : ServerRequestDriver) (h : gmap string string) (ra : string) :
  _last_header self = Some h →
  h !! "response_address" = Some ra →
  (ra = "EOF" →
   send_message args kw self = ConnectionDriver_send_message args kw self)
  ∧ (∀ rid, ra ≠ "EOF" → is_comm_open self = true → h !! "id" = Some rid →
     let d := {| srd_response_address := ra; srd_comm := comm self;
                 srd_msg_id := rid;
                 model_response_address := new_address (comm_count self);
                 srd_started := true |} in
     let kw' :=
       {| send_header := Some (default true (send_header kw));
          header_kwargs :=
            Some (setdefault "id" rid
                    (setdefault "response_address" (model_response_address d)
                       (default ∅ (header_kwargs kw))));
          other_kwargs := other_kwargs kw |} in
     send_message args kw self
     = ConnectionDriver_send_message args kw' (add_response_driver d self)
     ∧ response_drivers (send_message args kw self).2
       = (response_drivers self ++ [d])%list).
Proof.
  intros Hh Hra. split.
  - intros ->. by apply (send_message_eof _ _ _ h).
  - intros rid Hne Hopen Hid d kw'.
    assert (Hsend : send_message args kw self
      = ConnectionDriver_send_message args kw' (add_response_driver d self)).
    { unfold Driver.send_message. cbv [mbind M_bind].
      rewrite (response_address_lookup self h ra) by done.
      rewrite decide_True by done.
      cbv [gets]. rewrite Hopen. simpl.
      rewrite (response_address_lookup self h ra) by done.
      rewrite (request_id_lookup self h rid) by done.
      unfold ServerResponseDriver_new. cbv [mbind M_bind gets mret M_ret modify].
      rewrite (request_id_lookup _ h rid) by done.
      reflexivity. }
    split; [done|]. by rewrite Hsend.
Qed.

(** *** Sequences of sign-ons and sign-offs *)

Lemma run_app (evs1 evs2 : list event) (self : ServerRequestDriver) :
  run (evs1 ++ evs2)%list self
  = match run evs1 self with
    | (Ok _, self') => run evs2 self'
    | (Raise e, self') => (Raise e, self')
    end.
Proof.
  revert self. induction evs1 as [|ev evs1 IH]; intros self; [done|].
  simpl. cbv [mbind M_bind].
  destruct (run_loop ev self) as [[[]|e] self1]; [apply IH|done].
Qed.

Lemma signons_app (evs1 evs2 : list client_event) :
  signons (evs1 ++ evs2)%list = signons evs1 + signons evs2.
Proof. unfold signons. by rewrite List.filter_app, length_app. Qed.

Lemma signoffs_app (evs1 evs2 : list client_event) :
  signoffs (evs1 ++ evs2)%list = signoffs evs1 + signoffs evs2.
Proof. unfold signoffs. by rewrite List.filter_app, length_app. Qed.

(** The count of clients a sequence leaves signed on. *)
#[local] Abbreviation balance evs :=
  (Z.of_nat (signons evs) - Z.of_nat (signoffs evs))%Z.

(** One client event that does not bring the count of clients to zero. *)
Lemma run_loop_no_eof (c : client_event) (self : ServerRequestDriver) :
  (nclients self + balance [c])%Z ≠ 0%Z →
  ∃ self1,
    run_loop (to_event c) self = (Ok (), self1)
    ∧ nclients self1 = (nclients self + balance [c])%Z
    ∧ ocomm_sent self1 = ocomm_sent self
    ∧ response_drivers self1 = response_drivers self
    ∧ (is_Some (_last_header self) ∨ 0 < signons [c] →
       is_Some (_last_header self1)).
Proof.
  intros Hnz. destruct c as [header|].
  - eexists. unfold Driver.run_loop, recv_message, Driver.on_message.
    simpl. rewrite decide_True by done. run_method.
    repeat split; eauto.
  - eexists. unfold Driver.run_loop, recv_message. simpl.
    cbv [mbind M_bind]. rewrite on_eof_unfold.
    rewrite decide_False.
    2:{ intros H1. apply Hnz. rewrite H1. unfold signons, signoffs. simpl. lia. }
    run_method. repeat split.
    unfold signons. simpl. intros [?|?]; [assumption|lia].
Qed.

(** As long as the count of clients does not come to zero, the pump
    forwards nothing and [nclients] follows the count. *)
Lemma run_no_eof (evs : list client_event) : ∀ self : ServerRequestDriver,
  (∀ n, 0 < n ≤ length evs →
        (nclients self + balance (take n evs))%Z ≠ 0%Z) →
  ∃ self',
    run (to_event <$> evs) self = (Ok (), self')
    ∧ nclients self' = (nclients self + balance evs)%Z
    ∧ ocomm_sent self' = ocomm_sent self
    ∧ response_drivers self' = response_drivers self
    ∧ (is_Some (_last_header self) ∨ 0 < signons evs →
       is_Some (_last_header self')).
Proof.
  induction evs as [|c evs IH]; intros self Hnz.
  { exists self. unfold signons, signoffs. simpl.
    repeat split; [lia|]. intros [?|?]; [done|lia]. }
  destruct (run_loop_no_eof c self)
    as (self1 & Hrun1 & Hn1 & Hsent1 & Hdrv1 & Hh1).
  { specialize (Hnz 1). simpl in Hnz. rewrite take_0 in Hnz.
    apply Hnz. lia. }
  destruct (IH self1) as (self' & Hrun & Hn & Hsent & Hdrv & Hh).
  { intros n Hlen. specialize (Hnz (S n)). simpl in Hnz.
    rewrite Hn1. change (c :: take n evs) with ([c] ++ take n evs)%list in Hnz.
    rewrite signons_app, signoffs_app in Hnz.
    intros Hzero. apply Hnz; lia. }
  exists self'. simpl. cbv [mbind M_bind]. rewrite Hrun1.
  change (c :: evs) with ([c] ++ evs)%list. rewrite signons_app, signoffs_app.
  repeat split; [done|lia|congruence|congruence|].
  intros [Hsome|Hpos]; apply Hh.
  - left. apply Hh1. by left.
  - destruct (decide (0 < signons evs)); [by right|].
    left. apply Hh1. right. lia.
Qed.

(** One client event on a driver that has a header whenever a client is
    signed on: nothing is raised and [nclients] follows the count. *)
Lemma run_loop_client (c : client_event) (self : ServerRequestDriver) :
  is_Some (_last_header self) ∨ (nclients self ≤ 0)%Z →
  ∃ self1,
    run_loop (to_event c) self = (Ok (), self1)
    ∧ nclients self1 = (nclients self + balance [c])%Z
    ∧ response_drivers self1 = response_drivers self
    ∧ (is_Some (_last_header self1) ∨ (nclients self1 ≤ 0)%Z).
Proof.
  intros Hinv.
  destruct (decide (nclients self + balance [c] = 0)%Z) as [Hzero|Hnz].
  2:{ destruct (run_loop_no_eof c self Hnz)
        as (self1 & Hrun & Hn & _ & Hdrv & Hh).
      exists self1. repeat split; try done.
      destruct Hinv as [Hsome|Hle]; [left; apply Hh; by left|].
      destruct c as [header|]; [left; apply Hh; right|right].
      - unfold signons. simpl. lia.
      - rewrite Hn. unfold signons, signoffs. simpl. lia. }
  destruct c as [header|].
  - eexists. unfold Driver.run_loop, recv_message, Driver.on_message.
    simpl. rewrite decide_True by done. run_method.
    repeat split. left. by eexists.
  - assert (Hone : nclients self = 1%Z).
    { unfold signons, signoffs in Hzero. simpl in Hzero. lia. }
    destruct Hinv as [[h Hh]|Hle]; [|lia].
    unfold Driver.run_loop, recv_message. simpl. cbv [mbind M_bind].
    rewrite on_eof_unfold, decide_True by done. rewrite Hh.
    destruct (decide (eof_msg = "")) as [Hempty|Hmsg].
    + eexists. run_method. split; [reflexivity|].
      split; [simpl; lia|]. split; [reflexivity|]. right. simpl. lia.
    + rewrite (send_message_eof _ _ _ (<["response_address" := "EOF"]> h));
        [|done|apply lookup_insert_eq].
      eexists. unfold Driver.ConnectionDriver_send_message. run_method.
      split; [reflexivity|].
      split; [simpl; lia|]. split; [reflexivity|]. right. simpl. lia.
Qed.

(** From the initial driver, a sequence of sign-ons and sign-offs raises
    nothing and leaves [nclients] at the number of sign-ons less the number
    of sign-offs: it is negative exactly when more clients signed off than
    on. *)
Lemma nclients_follows_count (comm : option string)
    (evs : list client_event) :
  ∃ self',
    run (to_event <$> evs) (init comm) = (Ok (), self')
    ∧ nclients self' = balance evs
    ∧ response_drivers self' = [].
Proof.
  assert (Hgen : ∀ evs self,
    is_Some (_last_header self) ∨ (nclients self ≤ 0)%Z →
    ∃ self', run (to_event <$> evs) self = (Ok (), self')
      ∧ nclients self' = (nclients self + balance evs)%Z
      ∧ response_drivers self' = response_drivers self).
  { clear evs. induction evs as [|c evs IH]; intros self Hinv.
    { exists self. unfold signons, signoffs. simpl. repeat split. lia. }
    destruct (run_loop_client c self Hinv) as (self1 & Hrun1 & Hn1 & Hdrv1 & Hinv1).
    destruct (IH self1 Hinv1) as (self' & Hrun & Hn & Hdrv).
    exists self'. simpl. cbv [mbind M_bind]. rewrite Hrun1.
    change (c :: evs) with ([c] ++ evs)%list. rewrite signons_app, signoffs_app.
    split; [done|]. split; [lia|congruence]. }
  destruct (Hgen evs (init comm)) as (self' & Hrun & Hn & Hdrv).
  { right. simpl. lia. }
  exists self'. simpl in *. split; [done|]. split; [lia|done].
Qed.

(** C2, as the code has it.  For a sequence of sign-ons and sign-offs, as
    many of the one as of the other and at least one of each, in which the
    sign-ons are ahead of the sign-offs until the last event: [nclients] is
    positive and no EOF is forwarded before the last event; after the last
    event, which is the last sign-off, [nclients] is zero and the EOF
    sentinel is the one message that went to the output comm, with no
    response driver created. *)
Theorem eof_after_last_sign_off (comm : option string)
    (evs : list client_event) :
  eof_msg ≠ "" →
  signons evs = signoffs evs →
  0 < signons evs →
  (∀ n, 0 < n < length evs → signoffs (take n evs) < signons (take n evs)) →
  (∀ n, 0 < n < length evs →
        (0 < nclients (after comm evs n))%Z
        ∧ eof_forwarded (after comm evs n) = 0)
  ∧ (run (to_event <$> evs) (init comm)).1 = Ok ()
  ∧ nclients (after comm evs (length evs)) = 0%Z
  ∧ ocomm_sent (after comm evs (length evs)) = [([eof_msg], no_kwargs)]
  ∧ eof_forwarded (after comm evs (length evs)) = 1
  ∧ response_drivers (after comm evs (length evs)) = [].
Proof.
  intros Heof Hbal Hpos Hahead.
  assert (Hprefix : ∀ n, 0 < n < length evs →
    ∃ self', run (to_event <$> take n evs) (init comm) = (Ok (), self')
      ∧ nclients self' = balance (take n evs)
      ∧ ocomm_sent self' = []
      ∧ response_drivers self' = []
      ∧ (0 < signons (take n evs) → is_Some (_last_header self'))).
  { intros n Hn.
    destruct (run_no_eof (take n evs) (init comm))
      as (self' & Hrun & Hcount & Hsent & Hdrv & Hh).
    { intros j Hj. rewrite length_take in Hj. rewrite take_take.
      replace (j `min` n) with j by lia.
      specialize (Hahead j). simpl. lia. }
    exists self'. simpl in *. repeat split; try done. eauto. }
  split.
  { intros n Hn. destruct (Hprefix n Hn) as (self' & Hrun & Hcount & Hsent & _).
    unfold Driver.after, Driver.eof_forwarded. rewrite Hrun. simpl.
    rewrite Hcount, Hsent. specialize (Hahead n Hn). split; [lia|done]. }
  destruct (decide (length evs ≤ 1)) as [Hshort|Hlong].
  { destruct evs as [|[h|] [|? ?]]; unfold signons, signoffs in *;
      simpl in *; lia. }
  set (n := length evs - 1).
  assert (Hsplit : ∃ c, evs = (take n evs ++ [c])%list).
  { destruct (evs !! n) as [c|] eqn:Hc.
    - exists c. rewrite <-(take_drop n evs) at 1. f_equal.
      rewrite (drop_S _ c n) by done. rewrite drop_ge; [done|lia].
    - apply lookup_ge_None in Hc. lia. }
  destruct Hsplit as [c Hsplit].
  destruct (Hprefix n ltac:(lia)) as (self' & Hrun & Hcount & Hsent & Hdrv & Hh).
  specialize (Hahead n ltac:(lia)).
  assert (Hc : c = SignOff ∧ balance (take n evs) = 1%Z).
  { pose proof (f_equal signons Hsplit) as Hon.
    pose proof (f_equal signoffs Hsplit) as Hoff.
    rewrite signons_app in Hon. rewrite signoffs_app in Hoff.
    assert (signons [c] + signoffs [c] = 1) as Hone by by destruct c.
    destruct c as [header|].
    - assert (signoffs [SignOn header] = 0) by done. lia.
    - assert (signons [SignOff] = 0) by done. split; [done|lia]. }
  destruct Hc as [-> Hone].
  destruct Hh as [h Hh]; [lia|].
  assert (Hlast : run (to_event <$> evs) (init comm)
    = (Ok (),
       add_ocomm_sent ([eof_msg], no_kwargs)
         (set_last_header (Some (<["response_address" := "EOF"]> h))
            (set_nclients 0 self')))).
  { rewrite Hsplit, fmap_app, run_app, Hrun. simpl.
    unfold Driver.run_loop, recv_message. cbv [mbind M_bind].
    rewrite on_eof_unfold, decide_True by lia. rewrite Hh.
    rewrite decide_False by done.
    rewrite (send_message_eof _ _ _ (<["response_address" := "EOF"]> h));
      [done|done|apply lookup_insert_eq]. }
  unfold Driver.after, Driver.eof_forwarded.
  rewrite take_ge by lia. rewrite Hlast. simpl. rewrite Hsent, Hdrv. simpl.
  repeat split. by rewrite filter_cons_True.
Qed.

(** *** More on the methods *)

(** X1.  Before the input comm has received anything there is no last
    header: [request_id], [response_address] and [send_message] raise
    [AttributeError] and leave the driver as it is. *)
Theorem no_header_attribute_error (args : list string) (kw : kwargs)
    (self : ServerRequestDriver) :
  _last_header self = None →
  request_id self = (Raise (AttributeError "_last_header"), self)
  ∧ response_address self = (Raise (AttributeError "_last_header"), self)
  ∧ send_message args kw self = (Raise (AttributeError "_last_header"), self).
Proof.
  intros Hh. unfold Driver.send_message, request_id, response_address.
  run_method. by rewrite Hh.
Qed.

(** X2.  A request whose header has a response address but no ['id'] is
    not forwarded: with the comm open, [send_message] raises
    [KeyError('id')] before the response driver is created, and the driver
    is left as it was. *)
Theorem send_message_no_id (args : list string) (kw : kwargs)
    (self : ServerRequestDriver) (h : gmap string string) (ra : string) :
  _last_header self = Some h →
  h !! "response_address" = Some ra →
  ra ≠ "EOF" →
  is_comm_open self = true →
  h !! "id" = None →
  send_message args kw self = (Raise (KeyError "id"), self).
Proof.
  intros Hh Hra Hne Hopen Hid. unfold Driver.send_message.
  cbv [mbind M_bind]. rewrite (response_address_lookup self h ra) by done.
  rewrite decide_True by done. cbv [gets]. rewrite Hopen. simpl.
  rewrite (response_address_lookup self h ra) by done.
  unfold request_id. run_method. by rewrite Hh, Hid.
Qed.

(** X3.  Whatever the hooks return or raise, after any sequence of calls
    of [on_message] and [on_eof] the count [nclients] is the count before,
    plus the sign-on messages, less the calls of [on_eof]; the hooks leave
    the response drivers and the output comm alone. *)
Theorem hooks_count (calls : list hook_call) (self : ServerRequestDriver) :
  let self' := call_hooks CIS_CLIENT_INI eof_msg calls self in
  nclients self'
  = (nclients self
     + Z.of_nat (length (List.filter (is_sign_on_call CIS_CLIENT_INI) calls))
     - Z.of_nat (length (List.filter is_eof_call calls)))%Z
  ∧ response_drivers self' = response_drivers self
  ∧ ocomm_sent self' = ocomm_sent self
  ∧ comm_count self' = comm_count self
  ∧ is_comm_open self' = is_comm_open self.
Proof.
  revert self. induction calls as [|c calls IH]; intros self.
  { simpl. repeat split. lia. }
  simpl. specialize (IH (call_hook CIS_CLIENT_INI eof_msg c self).2).
  simpl in IH. destruct IH as (Hn & Hdrv & Hsent & Hcount & Hopen).
  assert (Hstep :
    nclients (call_hook CIS_CLIENT_INI eof_msg c self).2
    = (nclients self
       + (if is_sign_on_call CIS_CLIENT_INI c then 1 else 0)
       - (if is_eof_call c then 1 else 0))%Z
    ∧ response_drivers (call_hook CIS_CLIENT_INI eof_msg c self).2
      = response_drivers self
    ∧ ocomm_sent (call_hook CIS_CLIENT_INI eof_msg c self).2 = ocomm_sent self
    ∧ comm_count (call_hook CIS_CLIENT_INI eof_msg c self).2 = comm_count self
    ∧ is_comm_open (call_hook CIS_CLIENT_INI eof_msg c self).2
      = is_comm_open self).
  { destruct c as [msg|]; simpl.
    - unfold Driver.on_message.
      destruct (decide (msg = CIS_CLIENT_INI)) as [->|Hne].
      + rewrite bool_decide_eq_true_2 by done. run_method.
        repeat split. lia.
      + rewrite bool_decide_eq_false_2 by done. run_method.
        repeat split. lia.
    - rewrite on_eof_unfold. destruct (decide (nclients self = 1%Z)) as [H1|].
      + destruct (_last_header self); simpl; repeat split; lia.
      + simpl. repeat split. lia. }
  destruct Hstep as (Hn1 & Hdrv1 & Hsent1 & Hcount1 & Hopen1).
  rewrite Hn, Hdrv, Hsent, Hcount, Hopen, Hn1.
  repeat split; try done.
  destruct (is_sign_on_call CIS_CLIENT_INI c), (is_eof_call c); simpl; lia.
Qed.

(** [send_message], case by case. *)
Lemma send_message_cases (args : list string) (kw : kwargs)
    (self : ServerRequestDriver) :
  send_message args kw self
  = match _last_header self with
    | None => (Raise (AttributeError "_last_header"), self)
    | Some h =>
        match h !! "response_address" with
        | None => (Raise (KeyError "response_address"), self)
        | Some ra =>
            if decide (ra = "EOF") then
              ConnectionDriver_send_message args kw self
            else if is_comm_open self then
              match h !! "id" with
              | None => (Raise (KeyError "id"), self)
              | Some rid =>
                  let d :=
                    {| srd_response_address := ra; srd_comm := comm self;
                       srd_msg_id := rid;
                       model_response_address :=
                         new_address (comm_count self);
                       srd_started := true |} in
                  ConnectionDriver_send_message args
                    (header_kwargs_setdefault "id" rid
                       (header_kwargs_setdefault "response_address"
                          (model_response_address d)
                          (setdefault_header_kwargs
                             (setdefault_send_header true kw))))
                    (add_response_driver d self)
              end
            else (Ok false, self)
        end
    end.
Proof.
  destruct (_last_header self) as [h|] eqn:Hh.
  2:{ unfold Driver.send_message, response_address. run_method.
      by rewrite Hh. }
  destruct (h !! "response_address") as [ra|] eqn:Hra.
  2:{ unfold Driver.send_message, response_address. run_method.
      by rewrite Hh, Hra. }
  unfold Driver.send_message. cbv [mbind M_bind].
  rewrite (response_address_lookup self h ra) by done.
  destruct (decide (ra = "EOF")) as [->|Hne].
  { by rewrite decide_False by (intros Hn; by apply Hn). }
  rewrite decide_True by done. cbv [gets].
  destruct (is_comm_open self); simpl; [|done].
  rewrite (response_address_lookup self h ra) by done.
  destruct (h !! "id") as [rid|] eqn:Hid.
  - rewrite (request_id_lookup self h rid) by done.
    unfold ServerResponseDriver_new. cbv [mbind M_bind gets mret M_ret modify].
    by rewrite (request_id_lookup _ h rid).
  - unfold request_id. run_method. by rewrite Hh, Hid.
Qed.

(** X4.  [send_message] never removes or reorders a response driver: it
    appends at most one, which is started, and it appends one only when the
    message is also handed to the base class's [send_message]; it leaves
    [nclients] and the last header alone. *)
Theorem send_message_appends (args : list string) (kw : kwargs)
    (self : ServerRequestDriver) :
  let self' := (send_message args kw self).2 in
  ∃ new,
    response_drivers self' = response_drivers self ++ new
    ∧ length new ≤ 1
    ∧ Forall (fun d => srd_started d = true) new
    ∧ length (ocomm_sent self') ≤ S (length (ocomm_sent self))
    ∧ (new ≠ [] → length (ocomm_sent self') = S (length (ocomm_sent self)))
    ∧ nclients self' = nclients self
    ∧ _last_header self' = _last_header self.
Proof.
  rewrite send_message_cases.
  assert (Hnone : ∀ r : result bool,
    ∃ new, response_drivers (r, self).2 = response_drivers self ++ new
      ∧ length new ≤ 1
      ∧ Forall (fun d => srd_started d = true) new
      ∧ length (ocomm_sent (r, self).2) ≤ S (length (ocomm_sent self))
      ∧ (new ≠ [] →
         length (ocomm_sent (r, self).2) = S (length (ocomm_sent self)))
      ∧ nclients (r, self).2 = nclients self
      ∧ _last_header (r, self).2 = _last_header self).
  { intros r. exists []. simpl. rewrite app_nil_r.
    repeat split; auto; done. }
  destruct (_last_header self) as [h|] eqn:Hh; [|apply Hnone].
  destruct (h !! "response_address") as [ra|]; [|apply Hnone].
  destruct (decide (ra = "EOF")).
  { exists []. unfold Driver.ConnectionDriver_send_message. run_method.
    rewrite app_nil_r, length_app. simpl.
    repeat split; auto; try lia; done. }
  destruct (is_comm_open self); [|apply Hnone].
  destruct (h !! "id") as [rid|]; [|apply Hnone].
  eexists [_]. unfold Driver.ConnectionDriver_send_message. run_method.
  rewrite length_app. simpl.
  repeat split; auto; try lia.
Qed.

End DriverProperties.

(** ** Metaschema properties *)

Section PropertyProperties.

Import Property.

Context {object : Type} `{EqDecision object}.
Variable str : object → string.
Context {Validator : Type}.
Variable is_type : Validator → object → string → bool.

#[local] Abbreviation validate := (validate str is_type).
#[local] Abbreviation compare := (compare str (Validator := Validator)).
#[local] Abbreviation not_equal_message := (not_equal_message str).

(** The comparison of a class with no comparison function of its own. *)
Lemma compare_default (cls : MetaschemaProperty object Validator)
    (prop1 prop2 : object) :
  _compare cls = None →
  compare cls prop1 prop2
  = Ok (if decide (prop1 = prop2) then []
        else [not_equal_message prop1 prop2]).
Proof.
  intros Hc. unfold Property.compare. rewrite Hc.
  destruct (decide (prop1 = prop2)) as [->|Hne].
  - by rewrite decide_False by (intros Hn; by apply Hn).
  - by rewrite decide_True.
Qed.

(** The messages a comparison function of the class returns are not
    yielded by [compare]. *)
Lemma compare_function_not_yielded (cls : MetaschemaProperty object Validator)
    f (prop1 prop2 : object) (messages : list string) :
  _compare cls = Some f → f prop1 prop2 = Ok messages →
  compare cls prop1 prop2 = Ok [].
Proof. intros Hc Hf. unfold Property.compare. by rewrite Hc, Hf. Qed.

(** C8, as the code has it.  With [_validate] at [False], [validate] yields
    nothing; with a validate function of the class, it yields that
    function's messages; with neither, it yields nothing for an instance of
    none of the accepted types and, for an instance of one of them, it
    raises what [encode] raises or yields what [compare], on the encoded
    instance and the schema value, yields: with no comparison function of
    the class, the one message [<encoded> is not equal to <value>] when the
    two differ and nothing when they are equal. *)
Theorem validate_by_attribute (cls : MetaschemaProperty object Validator)
    (validator : Validator) (value instance schema : object) :
  match _validate cls with
  | ValidateFalse => validate cls validator value instance schema = Ok []
  | ValidateFunction f =>
      validate cls validator value instance schema
      = f validator value instance schema
  | ValidateNone =>
      if existsb (is_type validator instance) (types cls) then
        match encode cls instance value with
        | Raise e => validate cls validator value instance schema = Raise e
        | Ok x =>
            validate cls validator value instance schema = compare cls x value
            ∧ (_compare cls = None →
               validate cls validator value instance schema
               = Ok (if decide (x = value) then []
                     else [not_equal_message x value]))
        end
      else validate cls validator value instance schema = Ok []
  end.
Proof.
  unfold Property.validate.
  destruct (_validate cls) as [| |f]; [done| |done].
  destruct (existsb _ _); [|done].
  destruct (encode cls instance value) as [x|e]; simpl; [|done].
  split; [done|]. apply compare_default.
Qed.

(** *** More on validation *)

(** X10.  A class with no validate function of its own reports at most one
    message for an instance, however the instance and the schema value
    differ. *)
Theorem validate_at_most_one_message
    (cls : MetaschemaProperty object Validator) (validator : Validator)
    (value instance schema : object) (messages : list string) :
  _validate cls = ValidateNone →
  validate cls validator value instance schema = Ok messages →
  length messages ≤ 1.
Proof.
  unfold Property.validate, Property.compare. intros -> Hok.
  destruct (existsb _ _); [|injection Hok as <-; simpl; lia].
  destruct (Property.encode cls instance value) as [x|e]; [|done].
  simpl in Hok. destruct (_compare cls) as [f|].
  - destruct (f x value); [|done]. injection Hok as <-. simpl. lia.
  - destruct (decide (x ≠ value)); injection Hok as <-; simpl; lia.
Qed.

(** X11.  The messages of a comparison function of the class are never
    reported: with such a function and no validate function of its own,
    what [validate] yields is empty. *)
Theorem validate_drops_comparison_messages
    (cls : MetaschemaProperty object Validator) f (validator : Validator)
    (value instance schema : object) (messages : list string) :
  _validate cls = ValidateNone →
  _compare cls = Some f →
  validate cls validator value instance schema = Ok messages →
  messages = [].
Proof.
  unfold Property.validate, Property.compare. intros -> -> Hok.
  destruct (existsb _ _); [|by injection Hok as <-].
  destruct (Property.encode cls instance value) as [x|e]; [|done].
  simpl in Hok. destruct (f x value); [|done]. by injection Hok as <-.
Qed.

Section Wrapped.

Variable VALIDATORS :
  gmap string (Validator → object → object → object → result (list string)).

#[local] Abbreviation wrapped_validate :=
  (wrapped_validate str is_type VALIDATORS).

(** X12.  When the validation of the property itself reports errors,
    [wrapped_validate] yields exactly these: the validator of the base
    jsonschema validator for the property is not consulted, and
    [post_validate] is not called. *)
Theorem wrapped_validate_own_errors_only
    (cls : MetaschemaProperty object Validator) (normalizing : bool)
    (validator : Validator) (value instance schema : object)
    (messages : list string) :
  validate cls validator value instance schema = Ok messages →
  messages ≠ [] →
  yielded (wrapped_validate cls normalizing validator value instance schema)
  = messages
  ∧ raised (wrapped_validate cls normalizing validator value instance schema)
    = None
  ∧ post_validated
      (wrapped_validate cls normalizing validator value instance schema)
    = false.
Proof.
  intros Hok Hne. unfold Property.wrapped_validate, normalize.
  replace (default instance (if normalizing then Some instance else None))
    with instance by by destruct normalizing.
  rewrite Hok. by destruct messages.
Qed.

(** X13.  [post_validate] is called exactly when the validator is
    normalizing and no error was yielded, also when the validation raised;
    and a normalizing validator is given the instance unchanged as
    [_normalized]. *)
Theorem wrapped_validate_post_validate
    (cls : MetaschemaProperty object Validator) (normalizing : bool)
    (validator : Validator) (value instance schema : object) :
  let out :=
    wrapped_validate cls normalizing validator value instance schema in
  post_validated out = normalizing && bool_decide (length (yielded out) = 0)
  ∧ _normalized out = (if normalizing then Some instance else None).
Proof.
  unfold Property.wrapped_validate, normalize. simpl.
  destruct (validate cls validator value _ schema) as [[|m ms]|e]; simpl.
  - destruct (VALIDATORS !! name cls) as [base|]; simpl.
    + destruct (base validator value _ schema); simpl;
        by rewrite ?andb_true_r.
    + by rewrite andb_true_r.
  - by rewrite andb_false_r.
  - by rewrite andb_true_r.
Qed.

End Wrapped.

End PropertyProperties.

(** ** Comms and end of stream *)

Section CommProperties.

Import Comm.

Lemma append_empty_r (s : string) : s +:+ "" = s.
Proof.
  induction s as [|a s IH]; [done|].
  change (String a s +:+ "") with (String a (s +:+ "")). by rewrite IH.
Qed.

Lemma substring_all (s : string) :
  String.substring 0 (String.length s) s = s.
Proof. induction s as [|a s IH]; [done|]. simpl. by rewrite IH. Qed.

Lemma substring_split (s : string) : ∀ n : nat,
  String.substring 0 n s
  +:+ String.substring n (String.length s - n) s = s.
Proof.
  induction s as [|a s IH]; intros [|n]; try done.
  - change (String.substring 0 (String.length (String a s)) (String a s)
            = String a s).
    apply substring_all.
  - change (String a (String.substring 0 n s
                      +:+ String.substring n (String.length s - n) s)
            = String a s).
    by rewrite IH.
Qed.

(** The pieces of a payload put together give the payload. *)
Lemma chunks_reassemble (fuel size : nat) : ∀ msg : string,
  foldr String.append "" (chunks fuel size msg) = msg.
Proof.
  induction fuel as [|fuel IH]; intros msg; simpl.
  - apply append_empty_r.
  - destruct (String.length msg <=? size); simpl.
    + apply append_empty_r.
    + rewrite IH. apply substring_split.
Qed.

(** A payload of any length other than the EOF sentinel, sent through the
    chunked path on a comm with both ends open and nothing in transit, is
    received whole. *)
Lemma nolimit_delivers (msg : string) (ch : channel) :
  send_is_closed ch = false →
  recv_is_closed ch = false →
  transport ch = [] →
  msg ≠ eof_msg ch →
  (send_nolimit msg ch).1 = true
  ∧ (recv_nolimit (send_nolimit msg ch).2).1 = (true, msg).
Proof.
  intros Hsend Hrecv Hempty Hmsg.
  unfold send_nolimit. rewrite Hsend, decide_False by done. simpl.
  unfold recv_nolimit. simpl. rewrite Hrecv, Hempty. simpl.
  rewrite chunks_reassemble. by rewrite decide_False.
Qed.

(** C7.  On a comm of any kind with both ends open and nothing in transit,
    sending the EOF sentinel returns [False] and closes the sending end,
    and the receive that follows returns [False] with the EOF sentinel and
    closes the receiving end; so for [send]/[recv] and for
    [send_nolimit]/[recv_nolimit]. *)
Theorem eof_closes_both_ends (ch : channel) :
  send_is_closed ch = false →
  recv_is_closed ch = false →
  transport ch = [] →
  ((send (eof_msg ch) ch).1 = false
   ∧ send_is_closed (send (eof_msg ch) ch).2 = true
   ∧ (recv (send (eof_msg ch) ch).2).1 = (false, eof_msg ch)
   ∧ recv_is_closed (recv (send (eof_msg ch) ch).2).2 = true)
  ∧ ((send_nolimit (eof_msg ch) ch).1 = false
     ∧ send_is_closed (send_nolimit (eof_msg ch) ch).2 = true
     ∧ (recv_nolimit (send_nolimit (eof_msg ch) ch).2).1 = (false, eof_msg ch)
     ∧ recv_is_closed (recv_nolimit (send_nolimit (eof_msg ch) ch).2).2 = true).
Proof.
  intros Hsend Hrecv Hempty.
  assert (Hs : send (eof_msg ch) ch = (false, put [eof_msg ch] true ch)).
  { unfold send. by rewrite Hsend, decide_True. }
  assert (Hsn : send_nolimit (eof_msg ch) ch
                = (false, put [eof_msg ch] true ch)).
  { unfold send_nolimit. by rewrite Hsend, decide_True. }
  assert (Hr : recv (put [eof_msg ch] true ch)
               = (false, eof_msg ch, take_first true (put [eof_msg ch] true ch))).
  { unfold recv. simpl. rewrite Hrecv, Hempty. simpl. by rewrite decide_True. }
  assert (Hrn : recv_nolimit (put [eof_msg ch] true ch)
                = (false, eof_msg ch,
                   take_first true (put [eof_msg ch] true ch))).
  { unfold recv_nolimit. simpl. rewrite Hrecv, Hempty. simpl.
    rewrite append_empty_r. by rewrite decide_True. }
  rewrite Hs, Hsn. simpl. rewrite Hr, Hrn. done.
Qed.

End CommProperties.

(** ** C formats and numpy types *)

Section TableProperties.

Import Table.

Lemma last_char_append (s : string) (c : ascii) :
  last_char (s +:+ String c "") = Return c.
Proof.
  induction s as [|a s IH]; [done|].
  change (String a s +:+ String c "") with (String a (s +:+ String c "")).
  simpl. rewrite IH. by destruct (s +:+ String c "") eqn:E;
    [destruct s; discriminate E|].
Qed.

Lemma drop_last_append (s : string) (c : ascii) :
  drop_last (s +:+ String c "") = s.
Proof.
  induction s as [|a s IH]; [done|].
  change (String a s +:+ String c "") with (String a (s +:+ String c "")).
  simpl. rewrite IH. by destruct (s +:+ String c "") eqn:E;
    [destruct s; discriminate E|].
Qed.

Lemma length_append (s1 s2 : string) :
  String.length (s1 +:+ s2) = String.length s1 + String.length s2.
Proof.
  induction s1 as [|a s1 IH]; [done|].
  change (String a s1 +:+ s2) with (String a (s1 +:+ s2)). simpl.
  by rewrite IH.
Qed.

Lemma pretty_N_go_nonempty (x : N) (s : string) :
  s ≠ "" → pretty_N_go x s ≠ "".
Proof.
  revert s. induction (N.lt_wf_0 x) as [x _ IH]; intros s Hs.
  destruct (decide (x = 0)%N) as [->|Hx].
  - by rewrite pretty_N_go_0.
  - rewrite pretty_N_go_step by lia. apply IH; [|done].
    apply N.div_lt; lia.
Qed.

(** The decimal digits of a number are not the empty string. *)
Lemma pretty_nat_nonempty (n : nat) : pretty n ≠ "".
Proof.
  unfold pretty, pretty_nat, pretty, pretty_N.
  destruct (decide (N.of_nat n = 0)%N); [done|].
  rewrite pretty_N_go_step by lia. by apply pretty_N_go_nonempty.
Qed.

Lemma remove_length_letters (cc : ascii) :
  remove_char "l" (remove_char "h" (String "%" (String cc "")))
  = if bool_decide (cc = "h"%char ∨ cc = "l"%char) then "%"
    else String "%" (String cc "").
Proof.
  simpl. destruct (decide (cc = "h"%char)) as [Heq|Hh]; [by subst|].
  simpl. destruct (decide (cc = "l"%char)) as [Heq|Hl]; [by subst|].
  rewrite bool_decide_eq_false_2; [done|]. by intros [?|?].
Qed.

(** X14.  What [cformat2pyscanf] returns is ['%'] and the conversion
    character of the format, its last character, with flags, width and
    length dropped.  Such a result is a format that [cformat2pyscanf]
    leaves as it is; but for a format that ends in [h] or [l] the result
    is the bare ['%'], which [cformat2pyscanf] itself rejects. *)
Theorem cformat2pyscanf_result (cfmt out : string) :
  cformat2pyscanf cfmt = Return out →
  ∃ cc, last_char cfmt = Return cc
    ∧ if bool_decide (cc = "h"%char ∨ cc = "l"%char)
      then out = "%" ∧ throws (cformat2pyscanf out)
      else out = String "%" (String cc "") ∧ cformat2pyscanf out = Return out.
Proof.
  unfold cformat2pyscanf at 1.
  destruct (startswith "%" cfmt); cbn [negb]; [|done].
  destruct (String.length cfmt =? 1); [done|].
  destruct (last_char cfmt) as [cc|e]; [|done].
  unfold mbind, outcome_bind, mret, outcome_ret.
  change ("%" +:+ String cc "") with (String "%" (String cc "")).
  rewrite remove_length_letters.
  intros [= <-]. exists cc. split; [done|].
  destruct (bool_decide (cc = "h"%char ∨ cc = "l"%char)) eqn:Hcc; [done|].
  split; [done|]. unfold cformat2pyscanf.
  change (negb (startswith "%" (String "%" (String cc "")))) with false.
  change (String.length (String "%" (String cc "")) =? 1) with false.
  cbv iota. change (last_char (String "%" (String cc ""))) with (Return cc).
  unfold mbind, outcome_bind, mret, outcome_ret.
  change ("%" +:+ String cc "") with (String "%" (String cc "")).
  by rewrite remove_length_letters, Hcc.
Qed.

#[local] Abbreviation chars := String.list_ascii_of_string.

Lemma append_assoc (s1 s2 s3 : string) :
  (s1 +:+ s2) +:+ s3 = s1 +:+ (s2 +:+ s3).
Proof.
  induction s1 as [|a s1 IH]; [done|].
  change (String a ((s1 +:+ s2) +:+ s3) = String a (s1 +:+ (s2 +:+ s3))).
  by rewrite IH.
Qed.

Lemma chars_append (s1 s2 : string) :
  chars (s1 +:+ s2) = chars s1 ++ chars s2.
Proof.
  induction s1 as [|a s1 IH]; [done|].
  change (a :: chars (s1 +:+ s2) = a :: (chars s1 ++ chars s2)).
  by rewrite IH.
Qed.

Lemma count_append (c : ascii) (s1 s2 : string) :
  count c (s1 +:+ s2) = count c s1 + count c s2.
Proof.
  induction s1 as [|a s1 IH]; [done|].
  change (count c (String a (s1 +:+ s2)) = count c (String a s1) + count c s2).
  simpl. rewrite IH. lia.
Qed.

Lemma count_absent (c : ascii) (s : string) :
  c ∉ chars s → count c s = 0.
Proof.
  induction s as [|a s IH]; [done|].
  simpl. intros [Hne Hs]%not_elem_of_cons.
  rewrite IH by done. by destruct (decide (a = c)).
Qed.

Lemma count_concat (c : ascii) (sep : string) (fs : list string) :
  count c sep = 0 →
  Forall (fun f => count c f = 1) fs →
  count c (String.concat sep fs) = length fs.
Proof.
  intros Hsep Hfs. induction Hfs as [|f fs Hf Hfs IH]; [done|].
  destruct fs as [|f' fs]; [done|].
  change (String.concat sep (f :: f' :: fs))
    with (f +:+ sep +:+ String.concat sep (f' :: fs)).
  rewrite !count_append, Hf, Hsep, IH. done.
Qed.

Lemma prefix_append (sep rest : string) :
  String.prefix sep (sep +:+ rest) = true.
Proof.
  induction sep as [|a sep IH]; [by destruct rest|].
  change (String.prefix (String a sep) (String a (sep +:+ rest)) = true).
  simpl. by destruct (ascii_dec a a).
Qed.

Lemma split_go_skip (sep x piece rest : string) :
  split_go sep (String.length x) piece (x +:+ rest)
  = split_go sep 0 piece rest.
Proof. induction x as [|a x IH]; [done|exact IH]. Qed.

Lemma split_go_piece (c0 : ascii) (sep' w piece rest : string) :
  c0 ∉ chars w →
  split_go (String c0 sep') 0 piece (w +:+ rest)
  = split_go (String c0 sep') 0 (piece +:+ w) rest.
Proof.
  revert piece. induction w as [|a w IH]; intros piece Hw.
  { by rewrite append_empty_r. }
  apply not_elem_of_cons in Hw as [Hne Hw].
  change (String a w +:+ rest) with (String a (w +:+ rest)).
  simpl. destruct (ascii_dec c0 a) as [->|_]; [done|].
  rewrite IH by done. rewrite append_assoc. done.
Qed.

Lemma split_go_sep (c0 : ascii) (sep' piece rest : string) :
  split_go (String c0 sep') 0 piece (String c0 sep' +:+ rest)
  = piece :: split_go (String c0 sep') 0 "" rest.
Proof.
  change (String c0 sep' +:+ rest) with (String c0 (sep' +:+ rest)).
  cbn [split_go].
  change (String c0 (sep' +:+ rest)) with (String c0 sep' +:+ rest).
  rewrite prefix_append.
  change (String.length (String c0 sep') - 1) with (String.length sep' - 0).
  rewrite Nat.sub_0_r. by rewrite split_go_skip.
Qed.

(** Splitting what [join] made gives the pieces back, when the first
    character of the separator is in none of them. *)
Lemma split_go_concat (c0 : ascii) (sep' : string) (f : string)
    (fs : list string) :
  Forall (fun f => c0 ∉ chars f) (f :: fs) →
  split_go (String c0 sep') 0 "" (String.concat (String c0 sep') (f :: fs))
  = f :: fs.
Proof.
  revert f. induction fs as [|f' fs IH]; intros f Hfs.
  - apply Forall_cons in Hfs as [Hf _]. simpl.
    rewrite <- (append_empty_r f) at 1. by rewrite split_go_piece.
  - apply Forall_cons in Hfs as [Hf Hfs].
    change (String.concat (String c0 sep') (f :: f' :: fs))
      with (f +:+ String c0 sep'
            +:+ String.concat (String c0 sep') (f' :: fs)).
    rewrite split_go_piece by done. rewrite split_go_sep.
    by rewrite IH.
Qed.

Lemma chars_concat (c : ascii) (sep : string) (fs : list string) :
  c ∉ chars sep → Forall (fun f => c ∉ chars f) fs →
  c ∉ chars (String.concat sep fs).
Proof.
  intros Hsep Hfs. induction Hfs as [|f fs Hf Hfs IH]; [apply not_elem_of_nil|].
  destruct fs as [|f' fs]; [done|].
  change (String.concat sep (f :: f' :: fs))
    with (f +:+ sep +:+ String.concat sep (f' :: fs)).
  rewrite !chars_append, !not_elem_of_app. done.
Qed.

Lemma pretty_N_char_digit (x : N) :
  pretty_N_char x ∈ chars "0123456789".
Proof.
  unfold pretty_N_char.
  repeat (match goal with
          | |- context [match ?p with _ => _ end] => destruct p
          end);
    apply (bool_decide_unpack _); vm_compute; exact I.
Qed.

Lemma pretty_N_go_digits (x : N) (s : string) :
  Forall (fun c => c ∈ chars "0123456789") (chars s) →
  Forall (fun c => c ∈ chars "0123456789") (chars (pretty_N_go x s)).
Proof.
  revert s. induction (N.lt_wf_0 x) as [x _ IH]; intros s Hs.
  destruct (decide (x = 0)%N) as [->|Hx].
  - by rewrite pretty_N_go_0.
  - rewrite pretty_N_go_step by lia. apply IH; [apply N.div_lt; lia|].
    apply Forall_cons. split; [apply pretty_N_char_digit|done].
Qed.

Lemma pretty_nat_digits (n : nat) :
  Forall (fun c => c ∈ chars "0123456789") (chars (pretty n)).
Proof.
  unfold pretty, pretty_nat, pretty, pretty_N.
  destruct (decide (N.of_nat n = 0)%N).
  - apply (bool_decide_unpack _). vm_compute. exact I.
  - by apply pretty_N_go_digits.
Qed.

Section NumpyProperties.

Context {dtype : Type} `{EqDecision dtype}.
Variable np_dtype : string → option dtype.
Variable dtype_str : dtype → string.
Variable dtype_name : dtype → string.
Variable string_itemsize : dtype → option nat.

#[local] Abbreviation cformat2nptype := (cformat2nptype np_dtype dtype_str).
#[local] Abbreviation nptype2cformat :=
  (nptype2cformat np_dtype dtype_name string_itemsize).
#[local] Abbreviation new_dtype := (new_dtype np_dtype).
#[local] Abbreviation first_equal := (first_equal np_dtype).

(** The type names [cformat2nptype] picks for the formats of the chain. *)
Lemma integer_formats_back (name cfmt : string) (t : dtype) :
  (name, cfmt) ∈ integer_formats →
  np_dtype name = Some t →
  cformat2nptype cfmt = Return (dtype_str t).
Proof.
  intros Hin Ht. unfold integer_formats in Hin.
  repeat (apply elem_of_cons in Hin as [[= -> ->]|Hin];
          [unfold Table.cformat2nptype, Table.new_dtype; simpl;
           by rewrite Ht|]).
  by apply elem_of_nil in Hin.
Qed.

Lemma first_equal_back (t : dtype) (chain : list (string * string))
    (otherwise : outcome string) (cfmt : string) :
  first_equal t chain otherwise = Return cfmt →
  (∃ name, (name, cfmt) ∈ chain ∧ np_dtype name = Some t)
  ∨ otherwise = Return cfmt.
Proof.
  induction chain as [|[name c] chain IH]; simpl; [by right|].
  unfold Table.new_dtype. destruct (np_dtype name) as [d|] eqn:Hd; [|done].
  simpl. destruct (decide (t = d)) as [->|Hne].
  - intros [= <-]. left. exists name. split; [|done]. by left.
  - intros Hrest. destruct (IH Hrest) as [(n & Hin & Hn)|Ho]; [|by right].
    left. exists n. split; [|done]. by right.
Qed.

Lemma nptype2cformat_dtype (t : dtype) :
  nptype2cformat (NpDtype t)
  = match new_dtypes np_dtype float_names with
    | Return floats =>
        if bool_decide (t ∈ floats) then Return "%g"
        else
          first_equal t integer_formats
            match string_itemsize t with
            | Some itemsize =>
                if decide (itemsize = 0) then Return "%s"
                else Return ("%" +:+ pretty itemsize +:+ "s")
            | None =>
                Throw (ValueError
                         ("No format specification string for dtype "
                          +:+ dtype_name t))
            end
    | Throw e => Throw e
    end.
Proof. reflexivity. Qed.

Lemma new_dtypes_floats (floats : list dtype) (t : dtype) :
  new_dtypes np_dtype float_names = Return floats →
  t ∈ floats ↔ ∃ name, name ∈ float_names ∧ np_dtype name = Some t.
Proof.
  unfold float_names. simpl. unfold Table.new_dtype.
  destruct (np_dtype "float_") as [f0|] eqn:H0; [|done].
  destruct (np_dtype "float16") as [f1|] eqn:H1; [|done].
  destruct (np_dtype "float32") as [f2|] eqn:H2; [|done].
  destruct (np_dtype "float64") as [f3|] eqn:H3; [|done].
  simpl. intros [= <-]. rewrite !elem_of_cons, elem_of_nil. split.
  - intros [->|[->|[->|[->|[]]]]];
      [exists "float_"|exists "float16"|exists "float32"|exists "float64"];
      (split; [set_solver|done]).
  - intros (name & Hin & Hname).
    rewrite !elem_of_cons, elem_of_nil in Hin.
    destruct Hin as [->|[->|[->|[->|[]]]]]; naive_solver.
Qed.

(** X15.  For a numpy type that is not a float, the format that
    [nptype2cformat] gives is read back by [cformat2nptype] as that type:
    integer types through the length letters of their format, byte strings
    through their width (numpy taking ['S'] followed by the digits of a
    size for the byte strings of that size). *)
Theorem cformat2nptype_of_nptype2cformat (t : dtype) (cfmt : string) :
  nptype2cformat (NpDtype t) = Return cfmt →
  (∀ name, name ∈ float_names → np_dtype name ≠ Some t) →
  (∀ n, string_itemsize t = Some n →
        np_dtype (if decide (n = 0) then "S" else "S" +:+ pretty n) = Some t) →
  cformat2nptype cfmt = Return (dtype_str t).
Proof.
  rewrite nptype2cformat_dtype. intros Hfmt Hfloat Hstring.
  destruct (new_dtypes np_dtype float_names) as [floats|e] eqn:Hfloats;
    [|done].
  assert (Hnot : t ∉ floats).
  { rewrite (new_dtypes_floats floats t Hfloats).
    intros (name & Hin & Hname). by eapply Hfloat. }
  rewrite bool_decide_eq_false_2 in Hfmt by done.
  apply first_equal_back in Hfmt as [(name & Hin & Hname)|Hstr].
  { by eapply integer_formats_back. }
  destruct (string_itemsize t) as [n|] eqn:Hn; [|done].
  specialize (Hstring n eq_refl).
  destruct (decide (n = 0)) as [->|Hpos].
  - injection Hstr as <-. unfold Table.cformat2nptype, Table.new_dtype.
    simpl. by rewrite Hstring.
  - injection Hstr as <-.
    change ("%" +:+ pretty n +:+ "s") with (String "%" (pretty n +:+ "s")).
    unfold Table.cformat2nptype.
    assert (Hstart : startswith "%" (String "%" (pretty n +:+ "s")) = true).
    { unfold startswith. simpl. by destruct (pretty n +:+ "s"). }
    rewrite Hstart. cbn [negb].
    assert (Hlen : (String.length (String "%" (pretty n +:+ "s")) =? 1)
                   = false).
    { apply Nat.eqb_neq. simpl. rewrite length_append. simpl. lia. }
    rewrite Hlen.
    assert (Hlast : last_char (String "%" (pretty n +:+ "s"))
                    = Return "s"%char).
    { change (String "%" (pretty n +:+ "s")) with (("%" +:+ pretty n) +:+ "s").
      apply last_char_append. }
    rewrite Hlast. unfold mbind at 1, outcome_bind at 1.
    change (char_in "s" "fFeEgG") with false.
    change (char_in "s" "di") with false.
    change (char_in "s" "uoxX") with false.
    change (char_in "s" "cs") with true. cbv iota.
    change (slice_1_m1 (String "%" (pretty n +:+ "s")))
      with (drop_last (pretty n +:+ "s")).
    rewrite drop_last_append.
    rewrite decide_True by apply pretty_nat_nonempty.
    unfold mbind, outcome_bind, mret, outcome_ret, Table.new_dtype.
    by rewrite Hstring.
Qed.

(** X16.  Every float type is written with the format ['%g'], which is
    read back as ['float64']: the width of a narrower float is not kept. *)
Theorem float_formats_widen (t f64 : dtype) (name cfmt : string) :
  nptype2cformat (NpDtype t) = Return cfmt →
  name ∈ float_names →
  np_dtype name = Some t →
  np_dtype "float64" = Some f64 →
  cfmt = "%g" ∧ cformat2nptype cfmt = Return (dtype_str f64).
Proof.
  rewrite nptype2cformat_dtype. intros Hfmt Hin Hname H64.
  destruct (new_dtypes np_dtype float_names) as [floats|e] eqn:Hfloats;
    [|done].
  assert (Hel : t ∈ floats).
  { rewrite (new_dtypes_floats floats t Hfloats). eauto. }
  rewrite bool_decide_eq_true_2 in Hfmt by done. injection Hfmt as <-.
  split; [done|]. unfold Table.cformat2nptype, Table.new_dtype. simpl.
  by rewrite H64.
Qed.

(** *** The format of an [AsciiTable] *)

Variable dtype_fields : dtype → list dtype.

#[local] Abbreviation field_formats :=
  (field_formats np_dtype dtype_name string_itemsize).
#[local] Abbreviation format_str :=
  (format_str np_dtype dtype_name string_itemsize dtype_fields).
#[local] Abbreviation fmts :=
  (fmts np_dtype dtype_name string_itemsize dtype_fields).
#[local] Abbreviation ncols :=
  (ncols np_dtype dtype_name string_itemsize dtype_fields).
#[local] Abbreviation update_dtype := (update_dtype np_dtype).

(** A format that [nptype2cformat] returns has one ['%'], and no other
    character than those of ["%ghdlus"] and the digits. *)
Lemma nptype2cformat_chars (t : dtype) (cfmt : string) :
  nptype2cformat (NpDtype t) = Return cfmt →
  count "%" cfmt = 1
  ∧ Forall (fun c => c ∈ chars "%ghdlus0123456789") (chars cfmt).
Proof.
  rewrite nptype2cformat_dtype.
  destruct (new_dtypes np_dtype float_names) as [floats|]; [|done].
  destruct (bool_decide (t ∈ floats)).
  { intros [= <-]. split; [done|].
    apply (bool_decide_unpack _). vm_compute. exact I. }
  intros [(name & Hin & _)|Hother]%first_equal_back.
  - unfold integer_formats in Hin.
    repeat (apply elem_of_cons in Hin as [[= -> ->]|Hin];
            [split; [done|apply (bool_decide_unpack _); vm_compute; exact I]|]).
    by apply elem_of_nil in Hin.
  - destruct (string_itemsize t) as [n|]; [|done].
    destruct (decide (n = 0)).
    { injection Hother as <-. split; [done|].
      apply (bool_decide_unpack _). vm_compute. exact I. }
    injection Hother as <-.
    pose proof (pretty_nat_digits n) as Hdigits. split.
    + change ("%" +:+ pretty n +:+ "s") with (String "%" (pretty n +:+ "s")).
      simpl. rewrite count_append, count_absent; [done|].
      intros Hin. rewrite Forall_forall in Hdigits.
      specialize (Hdigits _ Hin). revert Hdigits.
      apply (bool_decide_unpack _). vm_compute. exact I.
    + change ("%" +:+ pretty n +:+ "s") with (String "%" (pretty n +:+ "s")).
      simpl. rewrite chars_append. apply Forall_cons. split.
      { apply (bool_decide_unpack _). vm_compute. exact I. }
      apply Forall_app. split.
      * eapply Forall_impl; [exact Hdigits|]. intros c Hc. simpl.
        do 7 apply list_elem_of_further. exact Hc.
      * apply (bool_decide_unpack _). vm_compute. exact I.
Qed.

Lemma field_formats_chars (fields : list dtype) (cfmts : list string) :
  field_formats fields = Return cfmts →
  length cfmts = length fields
  ∧ Forall (fun f => count "%" f = 1
                     ∧ Forall (fun c => c ∈ chars "%ghdlus0123456789")
                         (chars f)) cfmts.
Proof.
  revert cfmts. induction fields as [|t fields IH]; intros cfmts.
  { intros [= <-]. by split. }
  cbn [Table.field_formats].
  destruct (nptype2cformat (NpDtype t)) as [f|] eqn:Hf; [|done].
  unfold mbind at 1, outcome_bind at 1.
  destruct (field_formats fields) as [fs|] eqn:Hfs; [|done].
  intros [= <-]. destruct (IH fs eq_refl) as [Hlen Hall]. split.
  - simpl. by rewrite Hlen.
  - apply Forall_cons. split; [by apply nptype2cformat_chars in Hf|done].
Qed.

(** X23.  After [update_dtype] with a type each field of which has a C
    format, the format string is made anew from the type, whatever it was
    before: [ncols] is the number of fields of the type, as long as the
    column separator and the newline have no ['%']. *)
Theorem ncols_counts_fields (self : AsciiTable dtype) (d : dtype)
    (cfmts : list string) :
  field_formats (dtype_fields d) = Return cfmts →
  "%"%char ∉ chars (column self) →
  "%"%char ∉ chars (newline self) →
  let self' := (update_dtype (inl d) self).2 in
  (ncols self').1 = Return (length (dtype_fields d))
  ∧ _format_str (ncols self').2
    = Some (String.concat (column self) cfmts +:+ newline self)
  ∧ _dtype (ncols self').2 = Some d.
Proof.
  intros Hfmts Hcol Hnl. simpl.
  unfold Table.ncols, Table.format_str. simpl. rewrite Hfmts. simpl.
  split; [|done]. f_equal.
  destruct (field_formats_chars _ _ Hfmts) as [Hlen Hall].
  rewrite count_append, (count_absent _ (newline self)) by done.
  rewrite count_concat, Hlen; [lia|by apply count_absent|].
  eapply Forall_impl; [exact Hall|]. by intros f [? _].
Qed.

(** X24.  For such a type, [fmts] gives back the formats of the fields
    that the format string was joined from, when the first character of
    the column separator is none of a format and the first character of
    the newline is none of a format and not in the column separator; but
    for a type without fields it gives one empty format. *)
Theorem fmts_of_dtype (self : AsciiTable dtype) (d : dtype)
    (cfmts : list string) (c n : ascii) (col nl : string) :
  field_formats (dtype_fields d) = Return cfmts →
  column self = String c col →
  newline self = String n nl →
  c ∉ chars "%ghdlus0123456789" →
  n ∉ chars "%ghdlus0123456789" →
  n ∉ chars (column self) →
  (fmts (update_dtype (inl d) self).2).1
  = Return (if decide (cfmts = []) then [""] else cfmts).
Proof.
  intros Hfmts Hcol Hnl Hc Hn Hncol.
  destruct (field_formats_chars _ _ Hfmts) as [_ Hall].
  assert (Hno : ∀ a, a ∉ chars "%ghdlus0123456789" →
                Forall (fun f => a ∉ chars f) cfmts).
  { intros a Ha. eapply Forall_impl; [exact Hall|].
    intros f [_ Hf] Hin. rewrite Forall_forall in Hf. by apply Ha, Hf. }
  unfold Table.fmts, Table.format_str. simpl. rewrite Hfmts. simpl.
  unfold split. rewrite Hnl, Hcol.
  rewrite !decide_False by done.
  unfold mbind, outcome_bind.
  rewrite split_go_piece
    by (rewrite <- Hcol; apply chars_concat; [done|by apply Hno]).
  rewrite <- (append_empty_r (String n nl)) at 2. rewrite split_go_sep.
  change ("" +:+ String.concat (String c col) cfmts)
    with (String.concat (String c col) cfmts).
  destruct cfmts as [|f fs]; [done|].
  rewrite decide_False by done. f_equal.
  apply split_go_concat. by apply Hno.
Qed.

End NumpyProperties.

End TableProperties.

(** ** IPC queue tools *)

Section ToolsProperties.

Import Table Tools.

Variable exit_code : list string → string → Z.
Variable stdout : list string → string → string.

#[local] Abbreviation ipcrm := (ipcrm exit_code stdout).
#[local] Abbreviation ipcrm_each := (ipcrm_each exit_code stdout).
#[local] Abbreviation ipcrm_queues := (ipcrm_queues exit_code stdout).
#[local] Abbreviation ipcs := (ipcs exit_code stdout).
#[local] Abbreviation ipc_queues := (ipc_queues exit_code stdout).

Lemma ipcrm_run (q : string) (history : list string) :
  ipcrm ["-Q " +:+ q] history
  = (if decide (exit_code history ("ipcrm -Q " +:+ q) ≠ 0%Z)
     then Throw (Exception "Error on spawned process. See output.")
     else Return (),
     history ++ ["ipcrm -Q " +:+ q]).
Proof.
  unfold Tools.ipcrm, mbind, Sh_bind, Popen.
  change (String.concat " " ["ipcrm"; "-Q " +:+ q]) with ("ipcrm -Q " +:+ q).
  by destruct (decide _).
Qed.

Lemma ipcrm_each_cons (q : string) (keys : list string)
    (history : list string) :
  ipcrm_each (q :: keys) history
  = if decide (exit_code history ("ipcrm -Q " +:+ q) ≠ 0%Z)
    then (Throw (Exception "Error on spawned process. See output."),
          history ++ ["ipcrm -Q " +:+ q])
    else ipcrm_each keys (history ++ ["ipcrm -Q " +:+ q]).
Proof.
  change (ipcrm_each (q :: keys) history)
    with (match ipcrm ["-Q " +:+ q] history with
          | (Return a, history') => ipcrm_each keys history'
          | (Throw e, history') => (Throw e, history')
          end).
  rewrite ipcrm_run. by destruct (decide _).
Qed.

Lemma ipcrm_each_ok (keys : list string) (history : list string) :
  (∀ i cmd, (fun q => "ipcrm -Q " +:+ q) <$> keys !! i = Some cmd →
     exit_code (history ++ take i ((fun q => "ipcrm -Q " +:+ q) <$> keys)) cmd
     = 0%Z) →
  ipcrm_each keys history
  = (Return (), history ++ ((fun q => "ipcrm -Q " +:+ q) <$> keys)).
Proof.
  revert history. induction keys as [|q keys IH]; intros history Hall.
  { simpl. by rewrite app_nil_r. }
  rewrite ipcrm_each_cons.
  pose proof (Hall 0 _ eq_refl) as H0. simpl in H0. rewrite app_nil_r in H0.
  destruct (decide _) as [Hne|_]; [done|].
  rewrite IH.
  - by rewrite fmap_cons, <- app_assoc.
  - intros i cmd Hi. rewrite <- app_assoc. by apply (Hall (S i)).
Qed.

Lemma ipcrm_each_fails (keys : list string) (history : list string)
    (i : nat) (cmd : string) :
  (fun q => "ipcrm -Q " +:+ q) <$> keys !! i = Some cmd →
  exit_code (history ++ take i ((fun q => "ipcrm -Q " +:+ q) <$> keys)) cmd
  ≠ 0%Z →
  (∀ j cmd', j < i → (fun q => "ipcrm -Q " +:+ q) <$> keys !! j = Some cmd' →
     exit_code (history ++ take j ((fun q => "ipcrm -Q " +:+ q) <$> keys)) cmd'
     = 0%Z) →
  ipcrm_each keys history
  = (Throw (Exception "Error on spawned process. See output."),
     history ++ take (S i) ((fun q => "ipcrm -Q " +:+ q) <$> keys)).
Proof.
  revert history i. induction keys as [|q keys IH]; intros history i Hi Hne Hlt.
  { done. }
  rewrite ipcrm_each_cons. destruct i as [|i].
  - simpl in Hi, Hne. injection Hi as <-. rewrite app_nil_r in Hne.
    destruct (decide _); [|done]. by rewrite fmap_cons.
  - assert (H0 : exit_code (history ++ []) ("ipcrm -Q " +:+ q) = 0%Z)
      by (apply (Hlt 0); [lia|done]). simpl in H0.
    rewrite app_nil_r in H0. destruct (decide _) as [?|_]; [done|].
    rewrite (IH _ i).
    + by rewrite fmap_cons, <- app_assoc.
    + done.
    + rewrite <- app_assoc. exact Hne.
    + intros j cmd' Hj Hcmd. rewrite <- app_assoc.
      apply (Hlt (S j)); [lia|done].
Qed.

(** X17.  [ipcrm_queues] with a list of keys runs one command
    [ipcrm -Q <key>] for each key, in the order of the list, and returns
    when each of them exits with code 0; a single key given as a string
    is removed in the same way. *)
Theorem ipcrm_queues_removes_each (keys : list string)
    (history : list string) :
  (∀ i cmd, (fun q => "ipcrm -Q " +:+ q) <$> keys !! i = Some cmd →
     exit_code (history ++ take i ((fun q => "ipcrm -Q " +:+ q) <$> keys)) cmd
     = 0%Z) →
  ipcrm_queues (KeysList keys) history
  = (Return (), history ++ ((fun q => "ipcrm -Q " +:+ q) <$> keys))
  ∧ (∀ key, keys = [key] →
       ipcrm_queues (KeysStr key) history
       = (Return (), history ++ ["ipcrm -Q " +:+ key])).
Proof.
  intros Hall. split.
  - by apply ipcrm_each_ok.
  - intros key ->. by apply (ipcrm_each_ok [key]).
Qed.

(** X18.  [ipcrm_queues] stops at the first command that exits with a
    code other than 0: it raises, and the keys after that one are not
    removed. *)
Theorem ipcrm_queues_stops_at_failure (keys : list string)
    (history : list string) (i : nat) (cmd : string) :
  (fun q => "ipcrm -Q " +:+ q) <$> keys !! i = Some cmd →
  exit_code (history ++ take i ((fun q => "ipcrm -Q " +:+ q) <$> keys)) cmd
  ≠ 0%Z →
  (∀ j cmd', j < i → (fun q => "ipcrm -Q " +:+ q) <$> keys !! j = Some cmd' →
     exit_code (history ++ take j ((fun q => "ipcrm -Q " +:+ q) <$> keys)) cmd'
     = 0%Z) →
  ipcrm_queues (KeysList keys) history
  = (Throw (Exception "Error on spawned process. See output."),
     history ++ take (S i) ((fun q => "ipcrm -Q " +:+ q) <$> keys)).
Proof.
  intros Hi Hne Hlt. by apply (ipcrm_each_fails keys history i cmd).
Qed.

Lemma split_from_spaces (s : string) :
  Forall (fun c => isspace c = true) (String.list_ascii_of_string s) →
  split_from None s = [].
Proof.
  induction s as [|c s IH]; [done|].
  simpl. intros [Hc Hs]%Forall_cons. rewrite Hc. by apply IH.
Qed.

Lemma first_words_blank_line (lines : list string) (l : string) :
  l ∈ lines → split l = [] →
  first_words lines = Throw (IndexError "list index out of range").
Proof.
  intros Hin Hl. induction lines as [|l' lines IH]; [by apply elem_of_nil in Hin|].
  simpl. destruct (split l') as [|w ws] eqn:Hl'; [done|].
  apply elem_of_cons in Hin as [->|Hin]; [by rewrite Hl in Hl'|].
  by rewrite (IH Hin).
Qed.

(** X19.  Without keys, [ipcrm_queues] takes the first word of every line
    that [ipcs -q] prints, the two header lines and the empty lines apart.
    A line of white space only is not skipped and has no first word: the
    call raises [IndexError] after [ipcs -q] and removes no queue. *)
Theorem ipcrm_queues_blank_line (history : list string) (l : string) :
  exit_code history "ipcs -q" = 0%Z →
  l ∈ split_on "010" (stdout history "ipcs -q") →
  l ∉ skip_lines →
  Forall (fun c => isspace c = true) (String.list_ascii_of_string l) →
  ipcrm_queues KeysNone history
  = (Throw (IndexError "list index out of range"), history ++ ["ipcs -q"]).
Proof.
  intros Hcode Hin Hskip Hblank.
  unfold Tools.ipcrm_queues, Tools.ipc_queues, Tools.ipcs, mbind, Sh_bind,
    Popen, mret, Sh_ret, throw.
  change (String.concat " " ["ipcs"; "-q"]) with "ipcs -q".
  rewrite Hcode. simpl.
  rewrite (first_words_blank_line _ l); [done| |].
  - apply list_elem_of_filter. by split.
  - by apply split_from_spaces.
Qed.

End ToolsProperties.

(** ** The output driver of ASCII tables *)

Section TableDriverProperties.

Import TableDriver.

Context {value : Type}.
Variable str_value : string → value.
Variable eval_kwarg : value → value.

#[local] Abbreviation move_key := (move_key eval_kwarg).
#[local] Abbreviation init_kwargs := (init_kwargs str_value eval_kwarg).

Lemma move_keys_lookup (keys : list string)
    (ocomm_kws others : gmap string value) :
  let state := foldl (fun state k => move_key k state) (ocomm_kws, others) keys in
  (∀ k, state.2 !! k = if bool_decide (k ∈ keys) then None else others !! k)
  ∧ (∀ k, state.1 !! k
          = match (if bool_decide (k ∈ keys) then others !! k else None) with
            | Some v =>
                Some (if bool_decide (k ∈ evaluated_keys) then eval_kwarg v
                      else v)
            | None => ocomm_kws !! k
            end).
Proof.
  revert ocomm_kws others.
  induction keys as [|k0 keys IH]; intros ocomm_kws others.
  { cbv zeta. cbn [foldl fst snd].
    split; intros k; by rewrite bool_decide_eq_false_2 by apply not_elem_of_nil. }
  cbv zeta. cbn [foldl]. unfold TableDriver.move_key at 2 4.
  destruct (others !! k0) as [v0|] eqn:Hk0.
  - specialize (IH (if bool_decide (k0 ∈ evaluated_keys)
                    then <[k0:=eval_kwarg v0]> (<[k0:=v0]> ocomm_kws)
                    else <[k0:=v0]> ocomm_kws) (delete k0 others)).
    cbv zeta in IH. destruct IH as [IH2 IH1]. split; intros k.
    + rewrite IH2. destruct (decide (k = k0)) as [->|Hne].
      * rewrite (bool_decide_eq_true_2 (k0 ∈ k0 :: keys)) by apply list_elem_of_here.
        rewrite lookup_delete_eq. by destruct (bool_decide (k0 ∈ keys)).
      * rewrite lookup_delete_ne by done.
        destruct (decide (k ∈ keys)) as [Hin|Hnin].
        -- rewrite !bool_decide_eq_true_2; [done| |done].
           by apply list_elem_of_further.
        -- rewrite !bool_decide_eq_false_2; [done| |done].
           by intros [?|?]%elem_of_cons.
    + rewrite IH1. destruct (decide (k = k0)) as [->|Hne].
      * rewrite (bool_decide_eq_true_2 (k0 ∈ k0 :: keys)) by apply list_elem_of_here.
        rewrite lookup_delete_eq, Hk0.
        destruct (bool_decide (k0 ∈ keys)); destruct (bool_decide (k0 ∈ evaluated_keys));
          by rewrite ?lookup_insert_eq.
      * rewrite lookup_delete_ne by done.
        assert (bool_decide (k ∈ k0 :: keys) = bool_decide (k ∈ keys)) as ->.
        { apply bool_decide_ext. rewrite elem_of_cons.
          split; [by intros [?|?]|by right]. }
        destruct (if bool_decide (k ∈ keys) then others !! k else None); [done|].
        destruct (bool_decide (k0 ∈ evaluated_keys));
          by rewrite ?lookup_insert_ne by done.
  - specialize (IH ocomm_kws others). cbv zeta in IH.
    destruct IH as [IH2 IH1]. split; intros k.
    + rewrite IH2. destruct (decide (k = k0)) as [->|Hne].
      * rewrite (bool_decide_eq_true_2 (k0 ∈ k0 :: keys)) by apply list_elem_of_here.
        rewrite Hk0. by destruct (bool_decide (k0 ∈ keys)).
      * assert (bool_decide (k ∈ k0 :: keys) = bool_decide (k ∈ keys)) as ->; [|done].
        apply bool_decide_ext. rewrite elem_of_cons.
          split; [by intros [?|?]|by right].
    + rewrite IH1. destruct (decide (k = k0)) as [->|Hne].
      * rewrite (bool_decide_eq_true_2 (k0 ∈ k0 :: keys)) by apply list_elem_of_here.
        rewrite Hk0. by destruct (bool_decide (k0 ∈ keys)).
      * assert (bool_decide (k ∈ k0 :: keys) = bool_decide (k ∈ keys)) as ->; [|done].
        apply bool_decide_ext. rewrite elem_of_cons.
          split; [by intros [?|?]|by right].
Qed.

(** X20.  [AsciiTableOutputDriver.__init__] hands the parent class no
    keyword of the table file: each one the caller gave is moved into
    [ocomm_kws], where it replaces an entry of that name ([column_names],
    [use_astropy] and [as_array] after [eval_kwarg]); the other keywords
    and the other entries of [ocomm_kws] are passed as given; [comm] and
    [format_str] get their defaults only where the caller gave none. *)
Theorem init_kwargs_moves_file_keys (kw : kwargs value) :
  let given := default ∅ (ocomm_kws kw) in
  ∃ passed, ocomm_kws (init_kwargs kw) = Some passed
    ∧ (∀ k, k ∈ file_keys → others (init_kwargs kw) !! k = None)
    ∧ (∀ k, k ∉ file_keys → others (init_kwargs kw) !! k = others kw !! k)
    ∧ (∀ k v, k ∈ file_keys → others kw !! k = Some v →
         passed !! k = Some (if bool_decide (k ∈ evaluated_keys)
                             then eval_kwarg v else v))
    ∧ (∀ k, k ≠ "comm" → k ≠ "format_str" →
         k ∉ file_keys ∨ others kw !! k = None →
         passed !! k = given !! k)
    ∧ passed !! "comm"
      = Some (default (str_value "AsciiTableComm") (given !! "comm"))
    ∧ (others kw !! "format_str" = None →
       passed !! "format_str"
       = Some (default (str_value "temp") (given !! "format_str"))).
Proof.
  intros given. unfold TableDriver.init_kwargs. fold given.
  pose proof (move_keys_lookup file_keys
                (setdefault "comm" (str_value "AsciiTableComm") given)
                (others kw)) as [H2 H1].
  destruct (foldl _ _ file_keys) as [o r] eqn:Hfold. simpl in H1, H2.
  assert (Hcomm : ∀ k,
    setdefault "comm" (str_value "AsciiTableComm") given !! k
    = if decide (k = "comm")
      then Some (default (str_value "AsciiTableComm") (given !! "comm"))
      else given !! k).
  { intros k. unfold setdefault.
    destruct (given !! "comm") as [c|] eqn:Hc; destruct (decide (k = "comm")) as [->|Hne];
      simpl; by rewrite ?lookup_insert_eq, ?lookup_insert_ne. }
  assert (Hfmt : ∀ k, k ≠ "format_str" →
    setdefault "format_str" (str_value "temp") o !! k = o !! k).
  { intros k Hne. unfold setdefault.
    destruct (o !! "format_str"); [done|]. by rewrite lookup_insert_ne. }
  eexists. split; [reflexivity|]. simpl.
  split; [|split; [|split; [|split; [|split]]]].
  - intros k Hk. rewrite H2. by rewrite bool_decide_eq_true_2.
  - intros k Hk. rewrite H2. by rewrite bool_decide_eq_false_2.
  - intros k v Hk Hv. destruct (decide (k = "format_str")) as [->|Hne].
    + unfold setdefault. rewrite (H1 "format_str"), Hv. simpl.
      rewrite H1, Hv. done.
    + rewrite Hfmt by done. rewrite H1, bool_decide_eq_true_2 by done.
      by rewrite Hv.
  - intros k Hc Hf Hk. rewrite Hfmt by done. rewrite H1.
    assert ((if bool_decide (k ∈ file_keys) then others kw !! k else None)
            = None) as ->.
    { destruct Hk as [Hk|Hk]; [by rewrite bool_decide_eq_false_2|].
      rewrite Hk. by destruct (bool_decide _). }
    rewrite Hcomm. by destruct (decide _).
  - rewrite Hfmt by done. rewrite H1. simpl. by rewrite Hcomm.
  - intros Hnone. unfold setdefault. rewrite (H1 "format_str"), Hnone. simpl.
    rewrite Hcomm. simpl. destruct (given !! "format_str") as [f|] eqn:Hf.
    + rewrite H1, Hnone. simpl. by rewrite Hcomm, Hf.
    + by rewrite lookup_insert_eq.
Qed.

End TableDriverProperties.

(** ** The RabbitMQ output driver *)

Section RMQProperties.

Import RMQ.

Variable ipc_recv : nat → option string.

#[local] Abbreviation publish_loop := (publish_loop ipc_recv).
#[local] Abbreviation publish_message := (publish_message ipc_recv).

Lemma publish_loop_until (datas : list string) :
  ∀ (fuel : nat) (self : RMQOutputDriver),
  channel self = Some true →
  _closing self = false →
  Forall (fun data => data ≠ "") datas →
  (∀ i data, datas !! i = Some data →
     ipc_recv (received self + i) = Some data) →
  (ipc_recv (received self + length datas) = None
   ∨ ipc_recv (received self + length datas) = Some "") →
  length datas < fuel →
  publish_loop fuel self
  = Some (Returns,
          {| _closing := false; channel := Some true;
             published := published self ++ datas;
             timeouts :=
               match ipc_recv (received self + length datas) with
               | None => timeouts self
               | Some _ => S (timeouts self)
               end;
             closed := closed self;
             received := received self + S (length datas) |}).
Proof.
  induction datas as [|data datas IH]; intros fuel self Hch Hcl Hne Hrecv Hstop Hfuel.
  - destruct fuel as [|fuel]; [simpl in Hfuel; lia|].
    simpl in *. rewrite Nat.add_0_r in *. rewrite app_nil_r.
    unfold recv. replace (received self + 1) with (S (received self)) by lia.
    destruct Hstop as [->| ->]; simpl; by rewrite ?Hch, ?Hcl.
  - destruct fuel as [|fuel]; [simpl in Hfuel; lia|].
    simpl. unfold recv.
    pose proof (Hrecv 0 data eq_refl) as H0. rewrite Nat.add_0_r in H0.
    rewrite H0. apply Forall_cons in Hne as [Hd Hne].
    destruct data as [|c data]; [done|]. simpl. rewrite Hcl, Hch.
    rewrite (IH fuel); simpl.
    + replace (S (received self + length datas))
        with (received self + S (length datas)) by lia.
      replace (S (received self + S (length datas)))
        with (received self + S (S (length datas))) by lia.
      by rewrite <- app_assoc.
    + done.
    + done.
    + done.
    + intros i d Hi. replace (S (received self + i))
        with (received self + S i) by lia. by apply Hrecv.
    + replace (S (received self + length datas))
        with (received self + S (length datas)) by lia. exact Hstop.
    + simpl in Hfuel. lia.
Qed.

(** X21.  [publish_message] of a driver with an open channel that is not
    closing publishes the messages of the local queue in the order they
    are received, up to the first receive that finds the queue closed or
    empty; it then returns, and only in the second case schedules itself
    again, once. *)
Theorem publish_message_until_no_data (datas : list string) (fuel : nat)
    (self : RMQOutputDriver) :
  channel self = Some true →
  _closing self = false →
  Forall (fun data => data ≠ "") datas →
  (∀ i data, datas !! i = Some data →
     ipc_recv (received self + i) = Some data) →
  (ipc_recv (received self + length datas) = None
   ∨ ipc_recv (received self + length datas) = Some "") →
  length datas < fuel →
  ∃ self', publish_message fuel self = Some (Returns, self')
    ∧ published self' = published self ++ datas
    ∧ received self' = received self + S (length datas)
    ∧ timeouts self'
      = match ipc_recv (received self + length datas) with
        | Some _ => S (timeouts self)
        | None => timeouts self
        end
    ∧ _closing self' = false ∧ channel self' = Some true
    ∧ closed self' = closed self.
Proof.
  intros Hch Hcl Hne Hrecv Hstop Hfuel.
  unfold RMQ.publish_message. rewrite Hcl.
  rewrite (publish_loop_until datas) by done.
  eexists. split; [reflexivity|]. simpl. repeat split.
Qed.

(** X22.  After [stop_communication] the driver is closing and its
    channel is not open; the channel is closed at most once, however
    often [stop_communication] is called, and [publish_message] then
    returns at once: it receives nothing from the local queue, publishes
    nothing and does not schedule itself. *)
Theorem stop_communication_stops_publishing (self : RMQOutputDriver) :
  let self' := stop_communication self in
  _closing self' = true
  ∧ channel self' ≠ Some true
  ∧ closed self' = (if bool_decide (channel self = Some true)
                    then S (closed self) else closed self)
  ∧ published self' = published self
  ∧ stop_communication self' = self'
  ∧ ∀ fuel, publish_message fuel self' = Some (Returns, self').
Proof.
  unfold stop_communication, RMQ.publish_message.
  destruct self as [cl [[|]|] p t c r]; simpl; repeat split; done.
Qed.

End RMQProperties.

(** ** The properties at concrete inputs *)

(** The scalar class of the concrete registry decodes what it encoded. *)
Lemma demo_scalar_round_trip name c (v : Metaschema.pyobj Z) t :
  Demo.scalar_types !! name = Some c →
  Metaschema.scalar_validate c v t = true →
  ∃ e, Metaschema.scalar_encode_data c v t = Ok e
       ∧ Metaschema.scalar_decode_data c e t = Ok v.
Proof.
  unfold Demo.scalar_types. intros [_ <-]%lookup_singleton_Some Hv.
  destruct v as [z|m]; [|done]. exists (Metaschema.PLeaf (- z)%Z).
  simpl. split; [done|]. do 2 f_equal. lia.
Defined.

Lemma container_round_trip_witness :
  (Metaschema.encode_data Demo.scalar_types Demo.encode_untyped
     Demo.nested_value Demo.nested_typedef
   ≫= fun e => Metaschema.decode_data Demo.scalar_types e Demo.nested_typedef)
  = Ok Demo.nested_value.
Proof.
  apply (container_round_trip Demo.scalar_types Demo.encode_untyped
           demo_scalar_round_trip); vm_compute; reflexivity.
Defined.

(** [decode_data({'a': 1}, {'type': 'object', 'properties': {}})] raises
    the lookup error [KeyError('type')]. *)
Example decode_data_missing_entry_key_error :
  Metaschema.decode_data Demo.scalar_types
    (Metaschema.PDict {["a" := Metaschema.PLeaf 1%Z]})
    (Demo.object_typedef ∅)
  = Raise (KeyError "type").
Proof. vm_compute. reflexivity. Qed.

(** [encode_data] of the same value under the same typedef does not raise:
    the item goes to the dispatcher with no typedef. *)
Example encode_data_missing_entry_ok :
  Metaschema.encode_data Demo.scalar_types Demo.encode_untyped
    (Metaschema.PDict {["a" := Metaschema.PLeaf 1%Z]})
    (Demo.object_typedef ∅)
  = Ok (Metaschema.PDict {["a" := Metaschema.PLeaf 1%Z]}).
Proof. vm_compute. reflexivity. Qed.

Lemma round_trip_missing_entry_witness :
  Metaschema.encode_data Demo.scalar_types Demo.encode_untyped
    (Metaschema.PDict {["a" := Metaschema.PLeaf 1%Z]})
    (Demo.object_typedef ∅)
  = Ok (Metaschema.PDict {["a" := Metaschema.PLeaf 1%Z]})
  ∧ (Metaschema.encode_data Demo.scalar_types Demo.encode_untyped
       (Metaschema.PDict {["a" := Metaschema.PLeaf 1%Z]})
       (Demo.object_typedef ∅)
     ≫= fun e =>
          Metaschema.decode_data Demo.scalar_types e (Demo.object_typedef ∅))
    = Raise (KeyError "type").
Proof.
  destruct (round_trip_missing_entry Demo.scalar_types Demo.encode_untyped
              "a" (Metaschema.PLeaf 1%Z)) as (Henc & Htrip & _).
  split; [exact Henc|exact Htrip].
Defined.

Lemma decode_data_missing_entry_raises_witness :
  Metaschema._get_element (∅ : gmap string (Metaschema.typedef Z)) "a"
    Metaschema.empty_typedef = Metaschema.empty_typedef
  ∧ Metaschema.decode_data Demo.scalar_types
      (Metaschema.PDict {["a" := Metaschema.PLeaf 1%Z]})
      (Demo.object_typedef ∅)
    = Raise (KeyError "type").
Proof.
  destruct (decode_data_missing_entry_raises Demo.scalar_types
              {["a" := Metaschema.PLeaf 1%Z]} (Demo.object_typedef ∅)
              ∅ "a" (Metaschema.PLeaf 1%Z))
    as (Hget & _ & Hkey); [reflexivity..|].
  split; [exact Hget|].
  apply (Hkey (Metaschema.PDict ∅)). vm_compute. reflexivity.
Defined.

(** *** Sign-ons and sign-offs *)

Lemma on_message_sign_on_witness :
  (Driver.on_message Demo.CIS_CLIENT_INI Demo.CIS_CLIENT_INI
     Demo.open_driver).1 = Ok ""
  ∧ Driver.nclients
      (Driver.on_message Demo.CIS_CLIENT_INI Demo.CIS_CLIENT_INI
         Demo.open_driver).2 = 2%Z
  ∧ Driver.nclients
      (Driver.run_loop Demo.CIS_CLIENT_INI Demo.eof_msg Demo.new_address
         Demo.ocomm_send
         (Driver.Message (Demo.request_header "s1" "client_1")
            Demo.CIS_CLIENT_INI)
         Demo.open_driver).2 = 2%Z
  ∧ Driver.ocomm_sent
      (Driver.run_loop Demo.CIS_CLIENT_INI Demo.eof_msg Demo.new_address
         Demo.ocomm_send
         (Driver.Message (Demo.request_header "s1" "client_1")
            Demo.CIS_CLIENT_INI)
         Demo.open_driver).2 = [].
Proof.
  destruct (on_message_sign_on Demo.CIS_CLIENT_INI Demo.eof_msg
              Demo.new_address Demo.ocomm_send Demo.CIS_CLIENT_INI
              Demo.open_driver (Demo.request_header "s1" "client_1"))
    as (Hmsg & Hn & _ & Hsent & Hrun).
  split; [exact Hmsg|]. split; [exact Hn|]. split; [exact Hrun|exact Hsent].
Defined.

Lemma eof_after_last_sign_off_witness :
  let evs := [Driver.SignOn (Demo.request_header "s1" "client_1");
              Driver.SignOn (Demo.request_header "s2" "client_2");
              Driver.SignOff;
              Driver.SignOn (Demo.request_header "s3" "client_3");
              Driver.SignOff; Driver.SignOff] in
  let final :=
    Driver.after Demo.CIS_CLIENT_INI Demo.eof_msg Demo.new_address
      Demo.ocomm_send None evs 6 in
  Driver.nclients final = 0%Z
  ∧ Driver.ocomm_sent final = [([Demo.eof_msg], Driver.no_kwargs)]
  ∧ Driver.eof_forwarded Demo.eof_msg final = 1
  ∧ Driver.response_drivers final = [].
Proof.
  intros evs final.
  destruct (eof_after_last_sign_off Demo.CIS_CLIENT_INI Demo.eof_msg
              Demo.new_address Demo.ocomm_send None evs)
    as (_ & _ & Hn & Hsent & Heof & Hdrv).
  - done.
  - reflexivity.
  - vm_compute. lia.
  - intros n Hn. simpl in Hn.
    destruct n as [|[|[|[|[|[|n]]]]]]; try lia; vm_compute; lia.
  - repeat split; assumption.
Defined.

(** The scenario of [test_client_count]: two clients sign on; the first
    sign-off leaves [nclients] at one and forwards nothing; the second
    leaves it at zero and forwards the EOF sentinel once. *)
Example two_clients_sign_off :
  let evs := [Driver.SignOn (Demo.request_header "s1" "client_1");
              Driver.SignOn (Demo.request_header "s2" "client_2");
              Driver.SignOff; Driver.SignOff] in
  let after :=
    Driver.after Demo.CIS_CLIENT_INI Demo.eof_msg Demo.new_address
      Demo.ocomm_send None evs in
  Driver.nclients (after 2) = 2%Z
  ∧ Driver.nclients (after 3) = 1%Z
  ∧ Driver.eof_forwarded Demo.eof_msg (after 3) = 0
  ∧ Driver.nclients (after 4) = 0%Z
  ∧ Driver.eof_forwarded Demo.eof_msg (after 4) = 1.
Proof. vm_compute. repeat split. Qed.

(** C2 fails for a sequence in which the only client signs off before the
    next one signs on: the EOF sentinel is forwarded after the first of
    the two sign-offs. *)
Lemma sign_off_count_interleaved :
  ¬ Driver.sign_off_count_property Demo.CIS_CLIENT_INI Demo.eof_msg
      Demo.new_address Demo.ocomm_send None
      [Driver.SignOn (Demo.request_header "s1" "client_1"); Driver.SignOff;
       Driver.SignOn (Demo.request_header "s2" "client_2"); Driver.SignOff].
Proof.
  intros Hclaim. destruct (Hclaim eq_refl) as (_ & _ & Hlate).
  specialize (Hlate 2). vm_compute in Hlate.
  assert (1 = 0) as Habs; [apply Hlate; lia|lia].
Qed.

(** C3 fails for a sign-off at [nclients = 0]: nothing is raised and
    [nclients] is [-1]. *)
Lemma sign_off_without_client :
  ¬ Driver.nclients_invariant_property Demo.eof_msg (Driver.init None).
Proof.
  intros Hclaim. destruct Hclaim as [Hraise|Hneg]; [done| |].
  - vm_compute in Hraise. done.
  - vm_compute in Hneg. by apply Hneg.
Qed.

(** C5 fails when the comm is not open: no response driver is appended. *)
Lemma send_message_closed_no_driver :
  ¬ Driver.response_driver_property Demo.new_address Demo.ocomm_send
      ["request"] Driver.no_kwargs Demo.closed_driver.
Proof.
  intros Hclaim. destruct (Hclaim "client_1") as (d & Happ & _).
  - reflexivity.
  - done.
  - vm_compute in Happ. discriminate.
Qed.

Lemma send_message_response_driver_witness :
  let d := {| Driver.srd_response_address := "client_1";
              Driver.srd_comm := None; Driver.srd_msg_id := "r1";
              Driver.model_response_address := "address_0";
              Driver.srd_started := true |} in
  Driver.response_drivers
    (Driver.send_message Demo.new_address Demo.ocomm_send ["request"]
       Driver.no_kwargs Demo.open_driver).2 = [d]
  ∧ Driver.ocomm_sent
      (Driver.send_message Demo.new_address Demo.ocomm_send ["request"]
         Driver.no_kwargs Demo.open_driver).2
    = [(["request"],
        {| Driver.send_header := Some true;
           Driver.header_kwargs :=
             Some (<["id" := "r1"]> {["response_address" := "address_0"]});
           Driver.other_kwargs := ∅ |})].
Proof.
  intros d.
  destruct (send_message_response_driver Demo.new_address Demo.ocomm_send
              ["request"] Driver.no_kwargs Demo.open_driver
              (Demo.request_header "r1" "client_1") "client_1")
    as [_ Hnew]; [reflexivity..|].
  destruct (Hnew "r1") as [Hsend Hdrv]; [done|reflexivity..|].
  split; [exact Hdrv|]. rewrite Hsend. vm_compute. reflexivity.
Defined.

Lemma send_message_comm_closed_witness :
  Driver.send_message Demo.new_address Demo.ocomm_send ["request"]
    Driver.no_kwargs Demo.closed_driver
  = (Ok false, Demo.closed_driver).
Proof.
  apply (send_message_comm_closed Demo.new_address Demo.ocomm_send
           ["request"] Driver.no_kwargs Demo.closed_driver "client_1");
    [reflexivity|done|reflexivity].
Defined.

Lemma on_eof_last_client_witness :
  let self' :=
    Driver.set_last_header
      (Some (<["response_address" := "EOF"]>
               (Demo.request_header "r1" "client_1")))
      (Driver.set_nclients 0 Demo.open_driver) in
  Driver.on_eof Demo.eof_msg Demo.open_driver = (Ok Demo.eof_msg, self')
  ∧ Driver.response_drivers
      (Driver.send_message Demo.new_address Demo.ocomm_send [Demo.eof_msg]
         Driver.no_kwargs self').2 = [].
Proof.
  intros self'.
  destruct (on_eof_last_client Demo.eof_msg Demo.new_address Demo.ocomm_send
              Demo.open_driver (Demo.request_header "r1" "client_1")
              [Demo.eof_msg] Driver.no_kwargs)
    as (Heof & _ & _ & Hdrv); [reflexivity..|].
  split; [exact Heof|exact Hdrv].
Defined.

(** *** Validation *)

(** C8 fails for a class with [_validate] at [False]: the instance is of
    an accepted type and differs from the schema value, and nothing is
    yielded. *)
Lemma validate_disabled_yields_nothing :
  ¬ Property.validate_property id Demo.is_type Demo.disabled_property.
Proof.
  intros Hclaim. specialize (Hclaim () "b" "a" "schema"). simpl in Hclaim.
  specialize (Hclaim "a" eq_refl). vm_compute in Hclaim. discriminate.
Qed.

(** The messages of a comparison function of the class do not reach the
    caller of [validate]. *)
Example comparison_function_messages_dropped :
  Property.validate id Demo.is_type Demo.comparing_property () "b" "a" "schema"
  = Ok [].
Proof. reflexivity. Qed.

Lemma validate_by_attribute_witness :
  Property.validate id Demo.is_type Demo.default_property () "b" "a" "schema"
  = Ok ["a is not equal to b"].
Proof.
  pose proof (validate_by_attribute id Demo.is_type
                Demo.default_property () "b" "a" "schema") as H.
  simpl in H. destruct H as [_ H]. exact (H eq_refl).
Defined.

(** *** End of stream *)

Lemma eof_closes_both_ends_witness :
  let ch := Comm.new_comm Comm.FileComm "EOF!!!" 1024 in
  ((Comm.send "EOF!!!" ch).1 = false
   ∧ Comm.send_is_closed (Comm.send "EOF!!!" ch).2 = true
   ∧ (Comm.recv (Comm.send "EOF!!!" ch).2).1 = (false, "EOF!!!")
   ∧ Comm.recv_is_closed (Comm.recv (Comm.send "EOF!!!" ch).2).2 = true)
  ∧ ((Comm.send_nolimit "EOF!!!" ch).1 = false
     ∧ Comm.send_is_closed (Comm.send_nolimit "EOF!!!" ch).2 = true
     ∧ (Comm.recv_nolimit (Comm.send_nolimit "EOF!!!" ch).2).1
       = (false, "EOF!!!")
     ∧ Comm.recv_is_closed
         (Comm.recv_nolimit (Comm.send_nolimit "EOF!!!" ch).2).2 = true).
Proof.
  apply (eof_closes_both_ends (Comm.new_comm Comm.FileComm "EOF!!!" 1024));
    reflexivity.
Defined.

(** *** Requests without a header or an id *)

Lemma no_header_attribute_error_witness :
  Driver.request_id (Driver.init None)
  = (Raise (AttributeError "_last_header"), Driver.init None)
  ∧ Driver.response_address (Driver.init None)
    = (Raise (AttributeError "_last_header"), Driver.init None)
  ∧ Driver.send_message Demo.new_address Demo.ocomm_send ["request"]
      Driver.no_kwargs (Driver.init None)
    = (Raise (AttributeError "_last_header"), Driver.init None).
Proof.
  apply (no_header_attribute_error Demo.new_address Demo.ocomm_send
           ["request"] Driver.no_kwargs (Driver.init None)).
  reflexivity.
Defined.

Lemma send_message_no_id_witness :
  Driver.send_message Demo.new_address Demo.ocomm_send ["request"]
    Driver.no_kwargs Demo.no_id_driver
  = (Raise (KeyError "id"), Demo.no_id_driver).
Proof.
  apply (send_message_no_id Demo.new_address Demo.ocomm_send ["request"]
           Driver.no_kwargs Demo.no_id_driver
           {["response_address" := "client_1"]} "client_1");
    [reflexivity|reflexivity|done|reflexivity|reflexivity].
Defined.

(** *** Containers *)

Lemma encode_decode_keep_keys_witness :
  ∃ c, Metaschema.PDict {["a" := Metaschema.PLeaf (-1)%Z]} = Metaschema.PDict c
       ∧ dom c = dom ({["a" := Metaschema.PLeaf 1%Z]}
                        : gmap string (Metaschema.pyobj Z)).
Proof.
  apply (encode_decode_keep_keys Demo.scalar_types Demo.encode_untyped
           {["a" := Metaschema.PLeaf 1%Z]}
           (Demo.object_typedef {["a" := Demo.int_typedef]})).
  left. vm_compute. reflexivity.
Defined.

Lemma decode_data_needs_typedefs_witness :
  ∃ properties vtypedef name cls,
    Metaschema.td_properties (Demo.object_typedef {["a" := Demo.int_typedef]})
    = Some properties
    ∧ properties !! "a" = Some vtypedef
    ∧ Metaschema.td_type vtypedef = Some name
    ∧ Metaschema.get_type_class Demo.scalar_types name = Ok cls.
Proof.
  apply (decode_data_needs_typedefs Demo.scalar_types
           {["a" := Metaschema.PLeaf 1%Z]}
           (Demo.object_typedef {["a" := Demo.int_typedef]})
           (Metaschema.PDict {["a" := Metaschema.PLeaf (-1)%Z]})
           "a" (Metaschema.PLeaf 1%Z)).
  - vm_compute. reflexivity.
  - vm_compute. reflexivity.
Defined.

Lemma without_properties_witness :
  Metaschema.decode_data Demo.scalar_types
    (Metaschema.PDict {["a" := Metaschema.PLeaf 1%Z]})
    (Metaschema.Typedef (Some "object") None ∅)
  = Raise (KeyError "properties").
Proof.
  destruct (without_properties Demo.scalar_types Demo.encode_untyped
              {["a" := Metaschema.PLeaf 1%Z]}
              (Metaschema.Typedef (Some "object") None ∅))
    as (_ & Hraise & _); [reflexivity|].
  apply Hraise. intros Hempty.
  apply (f_equal (fun m => m !! "a")) in Hempty. vm_compute in Hempty.
  discriminate.
Defined.

Lemma typedef_other_entries_ignored_witness :
  Metaschema.encode_data Demo.scalar_types Demo.encode_untyped
    (Metaschema.PDict {["a" := Metaschema.PLeaf 1%Z]})
    (Demo.object_typedef {["a" := Demo.int_typedef]})
  = Metaschema.encode_data Demo.scalar_types Demo.encode_untyped
      (Metaschema.PDict {["a" := Metaschema.PLeaf 1%Z]})
      (Demo.object_typedef
         (<["b" := Demo.object_typedef ∅]> {["a" := Demo.int_typedef]}))
  ∧ Metaschema.decode_data Demo.scalar_types
      (Metaschema.PDict {["a" := Metaschema.PLeaf 1%Z]})
      (Demo.object_typedef {["a" := Demo.int_typedef]})
    = Metaschema.decode_data Demo.scalar_types
        (Metaschema.PDict {["a" := Metaschema.PLeaf 1%Z]})
        (Demo.object_typedef
           (<["b" := Demo.object_typedef ∅]> {["a" := Demo.int_typedef]})).
Proof.
  apply (typedef_other_entries_ignored Demo.scalar_types Demo.encode_untyped
           {["a" := Metaschema.PLeaf 1%Z]} _ _
           {["a" := Demo.int_typedef]}
           (<["b" := Demo.object_typedef ∅]> {["a" := Demo.int_typedef]}));
    [reflexivity|reflexivity|].
  intros k [v Hk]. apply lookup_singleton_Some in Hk as [<- _].
  vm_compute. reflexivity.
Defined.

(** *** Messages of [validate] and [wrapped_validate] *)

Lemma validate_at_most_one_message_witness :
  length ["a is not equal to b"] ≤ 1.
Proof.
  apply (validate_at_most_one_message id Demo.is_type Demo.default_property
           () "b" "a" "schema" ["a is not equal to b"]); reflexivity.
Defined.

Lemma validate_drops_comparison_messages_witness :
  Property.validate id Demo.is_type Demo.comparing_property () "b" "a" "schema"
  = Ok [] ∧ ([] : list string) = [].
Proof.
  split; [reflexivity|].
  apply (validate_drops_comparison_messages id Demo.is_type
           Demo.comparing_property (fun prop1 prop2 => Ok ["mismatch"])
           () "b" "a" "schema" []); reflexivity.
Defined.

Lemma wrapped_validate_own_errors_only_witness :
  Property.yielded
    (Property.wrapped_validate id Demo.is_type Demo.VALIDATORS
       Demo.default_property true () "b" "a" "schema")
  = ["a is not equal to b"]
  ∧ Property.raised
      (Property.wrapped_validate id Demo.is_type Demo.VALIDATORS
         Demo.default_property true () "b" "a" "schema")
    = None
  ∧ Property.post_validated
      (Property.wrapped_validate id Demo.is_type Demo.VALIDATORS
         Demo.default_property true () "b" "a" "schema")
    = false.
Proof.
  apply (wrapped_validate_own_errors_only id Demo.is_type Demo.VALIDATORS
           Demo.default_property true () "b" "a" "schema"
           ["a is not equal to b"]); [reflexivity|done].
Defined.

(** *** Formats *)

Lemma cformat2pyscanf_result_witness :
  ∃ cc, Table.last_char "%5.2lf" = Table.Return cc
    ∧ if bool_decide (cc = "h"%char ∨ cc = "l"%char)
      then "%f" = "%" ∧ Table.throws (Table.cformat2pyscanf "%f")
      else "%f" = String "%" (String cc "")
           ∧ Table.cformat2pyscanf "%f" = Table.Return "%f".
Proof.
  apply (cformat2pyscanf_result "%5.2lf" "%f"). vm_compute. reflexivity.
Defined.

Lemma cformat2nptype_of_nptype2cformat_witness :
  Table.cformat2nptype Demo.np_dtype Demo.np_str "%5s" = Table.Return "|S5".
Proof.
  apply (cformat2nptype_of_nptype2cformat Demo.np_dtype Demo.np_str
           Demo.np_name Demo.np_itemsize (Demo.Bytes 5) "%5s").
  - vm_compute. reflexivity.
  - intros name Hin. unfold Table.float_names in Hin.
    repeat (apply elem_of_cons in Hin as [->|Hin]; [vm_compute; discriminate|]).
    by apply elem_of_nil in Hin.
  - intros n [= <-]. vm_compute. reflexivity.
Defined.

Lemma float_formats_widen_witness :
  "%g" = "%g"
  ∧ Table.cformat2nptype Demo.np_dtype Demo.np_str "%g" = Table.Return "<f8".
Proof.
  apply (float_formats_widen Demo.np_dtype Demo.np_str Demo.np_name
           Demo.np_itemsize Demo.Float32 Demo.Float64 "float32" "%g").
  - vm_compute. reflexivity.
  - unfold Table.float_names. do 2 apply list_elem_of_further.
    apply list_elem_of_here.
  - reflexivity.
  - reflexivity.
Defined.

(** *** Removing queues *)

Lemma ipcrm_queues_removes_each_witness :
  Tools.ipcrm_queues Demo.exit_code Demo.stdout (Tools.KeysList ["42"; "43"]) []
  = (Table.Return (), ["ipcrm -Q 42"; "ipcrm -Q 43"]).
Proof.
  apply (ipcrm_queues_removes_each Demo.exit_code Demo.stdout ["42"; "43"] []).
  intros i cmd Hi. destruct i as [|[|i]]; simpl in Hi.
  - injection Hi as <-. vm_compute. reflexivity.
  - injection Hi as <-. vm_compute. reflexivity.
  - discriminate Hi.
Defined.

(** The second removal of a queue fails and the third key is left. *)
Lemma ipcrm_queues_stops_at_failure_witness :
  Tools.ipcrm_queues Demo.exit_code Demo.stdout
    (Tools.KeysList ["42"; "42"; "43"]) []
  = (Table.Throw (Table.Exception "Error on spawned process. See output."),
     ["ipcrm -Q 42"; "ipcrm -Q 42"]).
Proof.
  apply (ipcrm_queues_stops_at_failure Demo.exit_code Demo.stdout
           ["42"; "42"; "43"] [] 1 "ipcrm -Q 42").
  - reflexivity.
  - vm_compute. discriminate.
  - intros j cmd' Hj Hcmd. destruct j as [|j]; [|lia].
    simpl in Hcmd. injection Hcmd as <-. vm_compute. reflexivity.
Defined.

Lemma ipcrm_queues_blank_line_witness :
  Tools.ipcrm_queues Demo.exit_code Demo.stdout Tools.KeysNone []
  = (Table.Throw (Table.IndexError "list index out of range"), ["ipcs -q"]).
Proof.
  apply (ipcrm_queues_blank_line Demo.exit_code Demo.stdout [] " ").
  - reflexivity.
  - apply (bool_decide_unpack _). vm_compute. exact I.
  - apply (bool_decide_unpack _). vm_compute. exact I.
  - repeat constructor.
Defined.

(** *** Publishing *)

Lemma publish_message_until_no_data_witness :
  ∃ self', RMQ.publish_message Demo.ipc_recv 3 Demo.rmq_driver
           = Some (RMQ.Returns, self')
    ∧ RMQ.published self' = ["a"; "b"]
    ∧ RMQ.received self' = 3
    ∧ RMQ.timeouts self' = 1
    ∧ RMQ._closing self' = false ∧ RMQ.channel self' = Some true
    ∧ RMQ.closed self' = 0.
Proof.
  apply (publish_message_until_no_data Demo.ipc_recv ["a"; "b"] 3
           Demo.rmq_driver).
  - reflexivity.
  - reflexivity.
  - repeat constructor; discriminate.
  - intros i data Hi. destruct i as [|[|i]]; simpl in Hi.
    + by injection Hi as <-.
    + by injection Hi as <-.
    + discriminate Hi.
  - right. reflexivity.
  - simpl. lia.
Defined.

(** *** The format of a table *)

Lemma ncols_counts_fields_witness :
  let self' :=
    (Table.update_dtype Demo.record_dtype
       (inl (inr [Demo.Float32; Demo.Int16; Demo.Bytes 5])) Demo.table).2 in
  (Table.ncols Demo.record_dtype Demo.record_name Demo.record_itemsize
     Demo.record_fields self').1 = Table.Return 3
  ∧ Table._format_str
      (Table.ncols Demo.record_dtype Demo.record_name Demo.record_itemsize
         Demo.record_fields self').2
    = Some ("%g" +:+ String "009" ("%hd" +:+ String "009" ("%5s"
            +:+ String "010" "")))
  ∧ Table._dtype
      (Table.ncols Demo.record_dtype Demo.record_name Demo.record_itemsize
         Demo.record_fields self').2
    = Some (inr [Demo.Float32; Demo.Int16; Demo.Bytes 5]).
Proof.
  apply (ncols_counts_fields Demo.record_dtype Demo.record_name
           Demo.record_itemsize Demo.record_fields Demo.table
           (inr [Demo.Float32; Demo.Int16; Demo.Bytes 5])
           ["%g"; "%hd"; "%5s"]).
  - vm_compute. reflexivity.
  - apply (bool_decide_unpack _). vm_compute. exact I.
  - apply (bool_decide_unpack _). vm_compute. exact I.
Defined.

Lemma fmts_of_dtype_witness :
  (Table.fmts Demo.record_dtype Demo.record_name Demo.record_itemsize
     Demo.record_fields
     (Table.update_dtype Demo.record_dtype
        (inl (inr [Demo.Float32; Demo.Int16; Demo.Bytes 5])) Demo.table).2).1
  = Table.Return ["%g"; "%hd"; "%5s"].
Proof.
  apply (fmts_of_dtype Demo.record_dtype Demo.record_name
           Demo.record_itemsize Demo.record_fields Demo.table
           (inr [Demo.Float32; Demo.Int16; Demo.Bytes 5])
           ["%g"; "%hd"; "%5s"] "009" "010" "" "").
  - vm_compute. reflexivity.
  - reflexivity.
  - reflexivity.
  - apply (bool_decide_unpack _). vm_compute. exact I.
  - apply (bool_decide_unpack _). vm_compute. exact I.
  - apply (bool_decide_unpack _). vm_compute. exact I.
Defined.
